(** * dysk control-plane client: a shallow embedding of pkg/client/client.go

    The client talks to the dysk kernel module through fixed-size ioctl
    buffers and to the Azure page-blob store through the storage SDK.  Go
    strings are byte sequences ([string]), byte slices are [list byte], Go's
    [int] (64 bits wide, as on amd64) and [uint64] are [Z] with the wrap-around
    written out, run-time
    panics are an explicit outcome, and the calls that leave the process (the
    device file, ioctl, the blob store, DNS) are answered by a [World] of
    oracles while the order in which they are issued is recorded as a trace. *)

From Stdlib Require Import ZArith Lia List Bool.
From Stdlib Require Import Strings.String Strings.Ascii Strings.Byte.
Import ListNotations.

Open Scope string_scope.
Open Scope list_scope.
Open Scope Z_scope.

(** ** Go run-time: panics and machine integers *)
Module Go.

(** The run-time panics the client can raise. *)
Inductive panic : Type :=
| SliceBoundsOutOfRange (bound : Z) (length : Z)
| IndexOutOfRange (index : Z) (length : Z)
| MakeSliceLenOutOfRange (length : Z).

(** A Go expression either yields a value or panics. *)
Inductive outcome (A : Type) : Type :=
| Ret (a : A)
| Panic (p : panic).
Arguments Ret {A} a.
Arguments Panic {A} p.

Definition bind {A B : Type} (m : outcome A) (k : A -> outcome B) : outcome B :=
  match m with
  | Ret a => k a
  | Panic p => Panic p
  end.


(** [uint64] and 64-bit [int] conversions of a mathematical integer. *)
Definition to_uint64 (z : Z) : Z := z mod 2 ^ 64.
Definition to_int64 (z : Z) : Z := (z + 2 ^ 63) mod 2 ^ 64 - 2 ^ 63.

(** [len] of a string and of a slice. *)
Definition len (s : string) : Z := Z.of_nat (String.length s).
Definition len_bytes (b : list byte) : Z := Z.of_nat (List.length b).

(** The line feed, as a byte of a string and as a byte of a buffer. *)
Definition LF : ascii := ascii_of_byte x0a.

(** [s[:hi]] and [s[lo:]] on strings. *)
Definition slice_to (s : string) (hi : Z) : outcome string :=
  if (hi <? 0) || (len s <? hi) then Panic (SliceBoundsOutOfRange hi (len s))
  else Ret (substring 0 (Z.to_nat hi) s).

Definition slice_from (s : string) (lo : Z) : outcome string :=
  if (lo <? 0) || (len s <? lo) then Panic (SliceBoundsOutOfRange lo (len s))
  else Ret (substring (Z.to_nat lo) (String.length s - Z.to_nat lo) s).

(** [a[i]] on a slice of strings. *)
Definition index (a : list string) (i : nat) : outcome string :=
  match nth_error a i with
  | Some x => Ret x
  | None => Panic (IndexOutOfRange (Z.of_nat i) (Z.of_nat (List.length a)))
  end.

(** [make([]byte, n)]. *)
Definition make_bytes (n : Z) : outcome (list byte) :=
  if n <? 0 then Panic (MakeSliceLenOutOfRange n)
  else Ret (repeat x00 (Z.to_nat n)).

End Go.

Notation "x <- m ;; k" := (Go.bind m (fun x => k))
  (at level 61, m at next level, right associativity).

(** ** The parts of package strings the client calls.  Every separator the
    client passes is a one-byte string, so the model takes that byte. *)
Module Strings.

(** [strings.Index(s, sep)]: position of the first [sep], or -1. *)
Fixpoint index_from (i : Z) (s : string) (sep : ascii) : Z :=
  match s with
  | EmptyString => -1
  | String c s' => if Ascii.eqb c sep then i else index_from (i + 1) s' sep
  end.

Definition Index (s : string) (sep : ascii) : Z := index_from 0 s sep.

(** [strings.Contains(s, sep)] is [Index(s, sep) >= 0]. *)
Definition Contains (s : string) (sep : ascii) : bool := 0 <=? Index s sep.

(** [strings.Split(s, sep)]: the pieces between separators; a string without
    separator (also the empty string) gives one piece. *)
Fixpoint Split (s : string) (sep : ascii) : list string :=
  match s with
  | EmptyString => [EmptyString]
  | String c s' =>
      if Ascii.eqb c sep then EmptyString :: Split s' sep
      else match Split s' sep with
           | piece :: pieces => String c piece :: pieces
           | [] => [String c EmptyString]
           end
  end.

End Strings.

(** ** The parts of package strconv and of fmt's decimal verb *)
Module Strconv.

Inductive num_err : Type := ErrSyntax | ErrRange.

Definition maxUint64 : Z := 2 ^ 64 - 1.

(** Value of a decimal digit; every other byte is a syntax error in base 10. *)
Definition digit_val (c : ascii) : option Z :=
  let n := Z.of_N (N_of_ascii c) in
  if (48 <=? n) && (n <=? 57) then Some (n - 48) else None.

(** The digit loop of [ParseUint(s, 10, 64)], [n] the value so far. *)
Fixpoint parse_digits (s : string) (n : Z) : Z * option num_err :=
  match s with
  | EmptyString => (n, None)
  | String c s' =>
      match digit_val c with
      | None => (0, Some ErrSyntax)
      | Some d =>
          if maxUint64 / 10 + 1 <=? n then (maxUint64, Some ErrRange)
          else
            let n10 := n * 10 in
            let n1 := Go.to_uint64 (n10 + d) in
            if (n1 <? n10) || (maxUint64 <? n1) then (maxUint64, Some ErrRange)
            else parse_digits s' n1
      end
  end.

Definition ParseUint (s : string) : Z * option num_err :=
  match s with
  | EmptyString => (0, Some ErrSyntax)
  | _ => parse_digits s 0
  end.

(** [ParseInt(s, 10, 64)]: an optional sign, then [ParseUint]; a range error of
    the unsigned parse is re-judged against the signed bounds. *)
Definition ParseInt (s : string) : Z * option num_err :=
  match s with
  | EmptyString => (0, Some ErrSyntax)
  | String c rest =>
      let neg := Ascii.eqb c "-"%char in
      let digits := if Ascii.eqb c "+"%char || neg then rest else s in
      let '(un, err) := ParseUint digits in
      match err with
      | Some ErrSyntax => (0, Some ErrSyntax)
      | _ =>
          let cutoff := 2 ^ 63 in
          if negb neg && (cutoff <=? un) then (cutoff - 1, Some ErrRange)
          else if neg && (cutoff <? un) then (- cutoff, Some ErrRange)
          else
            let n := Go.to_int64 un in
            (if neg then Go.to_int64 (- n) else n, None)
      end
  end.

Definition digit_char (d : Z) : ascii := ascii_of_N (Z.to_N (48 + d)).

(** Decimal digits of an unsigned value, least significant first, as
    [strconv]'s formatBits produces them; twenty digits cover 64 bits. *)
Fixpoint format_bits (fuel : nat) (u : Z) (acc : string) : string :=
  match fuel with
  | O => acc
  | S fuel' =>
      if u <? 10 then String (digit_char u) acc
      else format_bits fuel' (u / 10) (String (digit_char (u mod 10)) acc)
  end.

(** The verb [%d] on a [uint64] and on an [int]. *)
Definition FormatUint (u : Z) : string := format_bits 20 u EmptyString.

Definition FormatInt (i : Z) : string :=
  if i <? 0 then String "-"%char (FormatUint (- i)) else FormatUint i.

End Strconv.

(** ** encoding/base64: which strings [StdEncoding.DecodeString] accepts.
    Line breaks are skipped; the rest is quanta of four alphabet characters,
    the last of which may end in one or two padding characters. *)
Module Base64.

Definition is_alphabet (c : ascii) : bool :=
  let n := Z.of_N (N_of_ascii c) in
  ((65 <=? n) && (n <=? 90)) || ((97 <=? n) && (n <=? 122))
  || ((48 <=? n) && (n <=? 57)) || (n =? 43) || (n =? 47).

Definition is_line_break (c : ascii) : bool :=
  let n := Z.of_N (N_of_ascii c) in (n =? 10) || (n =? 13).

Fixpoint strip_line_breaks (s : string) : list ascii :=
  match s with
  | EmptyString => []
  | String c s' =>
      if is_line_break c then strip_line_breaks s' else c :: strip_line_breaks s'
  end.

Fixpoint quanta_ok (fuel : nat) (l : list ascii) : bool :=
  match fuel, l with
  | _, [] => true
  | S fuel', a :: b :: c :: d :: rest =>
      is_alphabet a && is_alphabet b &&
      (if is_alphabet c then
         if is_alphabet d then quanta_ok fuel' rest
         else Ascii.eqb d "="%char && match rest with [] => true | _ => false end
       else Ascii.eqb c "="%char && Ascii.eqb d "="%char
            && match rest with [] => true | _ => false end)
  | _, _ => false
  end.

(** [true] when [DecodeString] returns a nil error. *)
Definition DecodeString_ok (s : string) : bool :=
  let l := strip_line_breaks s in quanta_ok (S (List.length l)) l.

End Base64.

(** ** package client *)
Module Client.

Import Go Strings Strconv.

(** Go [error] values, by the package that builds them. *)
Inductive error : Type :=
| Errorf (msg : string)                          (* fmt.Errorf *)
| Errno (e : Z)                                  (* syscall.Errno *)
| NumError (func : string) (num : string) (err : num_err)   (* strconv *)
| PathError (msg : string)                       (* os *)
| StorageError (msg : string)                    (* azure storage SDK *)
| EncodingError (msg : string).                  (* encoding/binary *)

(** IOCTL command codes; all in/out commands expect 2048-byte buffers. *)
Definition IOCTLMOUNTDYSK : Z := 9901.
Definition IOCTLUNMOUNTDYSK : Z := 9902.
Definition IOCTGETDYSK : Z := 9903.
Definition IOCTLISTDYYSKS : Z := 9904.
Definition IOCTL_IN_OUT_MAX : Z := 2048.

Record moduleResponse : Type := {
  is_error : bool;
  response : string
}.

(** Modelled from the spec: the declarations of [DyskType] and [Dysk] are in a
    file of the package that is not under src/.  The fields and their types
    are the ones client.go reads and writes ([DyskType] is converted from a
    string and measured with [len]); the field [Type] is spelled [Type_]. *)
Definition DyskType : Type := string.

Record Dysk : Type := {
  Type_ : DyskType;
  Name : string;
  sectorCount : Z;
  AccountName : string;
  AccountKey : string;
  Path : string;
  host : string;
  ip : string;
  LeaseId : string;
  Major : Z;
  Minor : Z;
  Vhd : bool;
  SizeGB : Z
}.

Definition set_account (d : Dysk) (name key : string) : Dysk :=
  {| Type_ := Type_ d; Name := Name d; sectorCount := sectorCount d;
     AccountName := name; AccountKey := key; Path := Path d;
     host := host d; ip := ip d; LeaseId := LeaseId d;
     Major := Major d; Minor := Minor d; Vhd := Vhd d; SizeGB := SizeGB d |}.

Definition set_sectorCount (d : Dysk) (n : Z) : Dysk :=
  {| Type_ := Type_ d; Name := Name d; sectorCount := n;
     AccountName := AccountName d; AccountKey := AccountKey d; Path := Path d;
     host := host d; ip := ip d; LeaseId := LeaseId d;
     Major := Major d; Minor := Minor d; Vhd := Vhd d; SizeGB := SizeGB d |}.

Definition set_SizeGB (d : Dysk) (n : Z) : Dysk :=
  {| Type_ := Type_ d; Name := Name d; sectorCount := sectorCount d;
     AccountName := AccountName d; AccountKey := AccountKey d; Path := Path d;
     host := host d; ip := ip d; LeaseId := LeaseId d;
     Major := Major d; Minor := Minor d; Vhd := Vhd d; SizeGB := n |}.

Definition set_host (d : Dysk) (h : string) : Dysk :=
  {| Type_ := Type_ d; Name := Name d; sectorCount := sectorCount d;
     AccountName := AccountName d; AccountKey := AccountKey d; Path := Path d;
     host := h; ip := ip d; LeaseId := LeaseId d;
     Major := Major d; Minor := Minor d; Vhd := Vhd d; SizeGB := SizeGB d |}.

Definition set_ip (d : Dysk) (a : string) : Dysk :=
  {| Type_ := Type_ d; Name := Name d; sectorCount := sectorCount d;
     AccountName := AccountName d; AccountKey := AccountKey d; Path := Path d;
     host := host d; ip := a; LeaseId := LeaseId d;
     Major := Major d; Minor := Minor d; Vhd := Vhd d; SizeGB := SizeGB d |}.

Definition set_devnums (d : Dysk) (major minor : Z) : Dysk :=
  {| Type_ := Type_ d; Name := Name d; sectorCount := sectorCount d;
     AccountName := AccountName d; AccountKey := AccountKey d; Path := Path d;
     host := host d; ip := ip d; LeaseId := LeaseId d;
     Major := major; Minor := minor; Vhd := Vhd d; SizeGB := SizeGB d |}.

Record dyskclient : Type := {
  storageAccountName : string;
  storageAccountKey : string
}.

(** *** Pure helpers of the wire protocol *)

(** string as buffer with the correct padding *)
Definition bufferize (s : string) : outcome (list byte) :=
  let messageBytes := list_byte_of_string s in
  pad <- make_bytes (IOCTL_IN_OUT_MAX - len_bytes messageBytes) ;;
  Ret (messageBytes ++ pad).

(** Converts a byte slice to a response object *)
Definition parseResponse (bytes : list byte) : outcome moduleResponse :=
  let s := string_of_list_byte bytes in
  let firstlinebreak := Index s LF in
  head <- slice_to s firstlinebreak ;;
  rest <- slice_from s (firstlinebreak + 1) ;;
  Ret {| is_error := String.eqb head "ERR"; response := rest |}.

Definition newline : string := String LF EmptyString.

(** Dysk as string:
    type-devicename-sectorcount-accountname-accountkey-path-host-ip-lease-vhd *)
Definition dysk2string (d : Dysk) : string :=
  let is_vhd := if Vhd d then 1 else 0 in
  (Type_ d ++ newline ++ Name d ++ newline
   ++ FormatUint (sectorCount d) ++ newline
   ++ AccountName d ++ newline ++ AccountKey d ++ newline
   ++ Path d ++ newline ++ host d ++ newline ++ ip d ++ newline
   ++ LeaseId d ++ newline ++ FormatInt is_vhd ++ newline)%string.

(** Converts a string to a dysk *)
Definition string2dysk (asstring : string) : outcome (Dysk + error) :=
  let split := Split asstring LF in
  s2 <- index split 2 ;;
  let '(sectorCount, _) := ParseUint s2 in
  s9 <- index split 9 ;;
  let '(major, err) := ParseInt s9 in
  match err with
  | Some e => Ret (inr (NumError "ParseInt" s9 e))
  | None =>
      s10 <- index split 10 ;;
      let '(minor, err) := ParseInt s10 in
      match err with
      | Some e => Ret (inr (NumError "ParseInt" s10 e))
      | None =>
          s11 <- index split 11 ;;
          let '(is_vhd, _) := ParseInt s11 in
          s0 <- index split 0 ;;
          s1 <- index split 1 ;;
          s3 <- index split 3 ;;
          s4 <- index split 4 ;;
          s5 <- index split 5 ;;
          s6 <- index split 6 ;;
          s7 <- index split 7 ;;
          s8 <- index split 8 ;;
          Ret (inl {| Type_ := s0; Name := s1; sectorCount := sectorCount;
                      AccountName := s3; AccountKey := s4; Path := s5;
                      host := s6; ip := s7; LeaseId := s8;
                      Major := major; Minor := minor;
                      Vhd := (1 =? is_vhd); SizeGB := 0 |})
      end
  end.

(** *** Calls that leave the process *)

(** One constructor per call the client issues, with its arguments.  The
    container and blob references of [set_pageblob_size] and [validateLease]
    are both taken from the descriptor's [Path] (by [path.Dir] and
    [path.Base]), so those events carry the path. *)
Inductive event : Type :=
| EvOpen                                                  (* os.Open(deviceFile) *)
| EvClose                                                 (* c.f.Close() *)
| EvIoctl (code : Z) (buffer : list byte)                 (* syscall.SYS_IOCTL *)
| EvNewBasicClient (account key : string)                 (* storage.NewBasicClient *)
| EvCreateIfNotExists (container : string)
| EvPutPageBlob (container blob : string) (contentLength : Z)
| EvWriteRange (container blob : string) (first last : Z) (data : list byte)
| EvAcquireLease (container blob : string)
| EvGetProperties (path lease : string)
| EvContainerExists (path : string)
| EvBlobExists (path : string)
| EvSetMetadata (path lease : string)
| EvLookupIP (hostname : string).                         (* net.LookupIP *)

(** Calls on the driver's control channel. *)
Definition is_channel_call (e : event) : bool :=
  match e with
  | EvOpen | EvClose | EvIoctl _ _ => true
  | _ => false
  end.

(** Calls that go over the network: the object store and the resolver. *)
Definition is_network_call (e : event) : bool :=
  match e with
  | EvCreateIfNotExists _ | EvPutPageBlob _ _ _ | EvWriteRange _ _ _ _ _
  | EvAcquireLease _ _ | EvGetProperties _ _ | EvContainerExists _
  | EvBlobExists _ | EvSetMetadata _ _ | EvLookupIP _ => true
  | _ => false
  end.

Definition is_ioctl (e : event) : bool :=
  match e with
  | EvIoctl _ _ => true
  | _ => false
  end.

(** What the outside answers to each call.  Every call is taken to return,
    with a value or with an error. *)
Record World : Type := {
  os_Open : option error;
  (* errno, and the bytes the driver has written from the start of the buffer *)
  ioctl : Z -> list byte -> Z * list byte;
  NewBasicClient : string -> string -> option error;
  CreateIfNotExists : string -> option error;
  PutPageBlob : string -> string -> Z -> option error;
  (* vhd.CreateFixedHeader followed by binary.Write *)
  FixedHeaderBytes : Z -> list byte + error;
  WriteRange : string -> string -> Z -> Z -> list byte -> option error;
  AcquireLease : string -> string -> string + error;
  (* content length and whether the blob type is BlobTypePage *)
  GetProperties : string -> string -> (Z * bool) + error;
  ContainerExists : string -> bool + error;
  BlobExists : string -> bool + error;
  SetMetadata : string -> string -> option error;
  LookupIP : string -> list string + error
}.

(** A computation issues calls in order and then returns or panics. *)
Definition M (A : Type) : Type := list event * outcome A.

Definition ret {A : Type} (a : A) : M A := ([], Ret a).

Definition bindM {A B : Type} (m : M A) (k : A -> M B) : M B :=
  match m with
  | (t, Ret a) => let '(t', r) := k a in (t ++ t', r)
  | (t, Panic p) => (t, Panic p)
  end.

Definition lift {A : Type} (o : outcome A) : M A := ([], o).

Definition call {A : Type} (e : event) (answer : A) : M A := ([e], Ret answer).

(** [defer f()]: the deferred call runs when the body returns or panics. *)
Definition defer {A : Type} (deferred : list event) (body : M A) : M A :=
  let '(t, r) := body in (t ++ deferred, r).

(** The driver fills the caller's buffer in place: the bytes it writes replace
    the head of the buffer, whose length does not change. *)
Definition overwrite (buffer written : list byte) : list byte :=
  firstn (List.length buffer) written ++ skipn (List.length written) buffer.

Notation "x <~ m ;; k" := (bindM m (fun x => k))
  (at level 61, m at next level, right associativity).
Notation "' p <~ m ;; k" := (bindM m (fun p => k))
  (at level 61, p pattern, m at next level, right associativity).

(** *** The client's operations *)
Section Operations.

(** The two [DyskType] constants are declared next to [Dysk], and the header
    size in the vhd package; the operations are read for any values. *)
Variables ReadOnly ReadWrite : DyskType.
Variable VHD_HEADER_SIZE : Z.
Variable w : World.

Definition GiB : Z := 1024 * 1024 * 1024.

Definition openDeviceFile : M (option error) := call EvOpen (os_Open w).

Definition closeDeviceFile : list event := [EvClose].

Definition ensureBlobService (c : dyskclient) : M (option error) :=
  call (EvNewBasicClient (storageAccountName c) (storageAccountKey c))
       (NewBasicClient w (storageAccountName c) (storageAccountKey c)).

(** The argument [is_vhd] is not read.  The progress lines written to the
    standard error stream are left out, and the header slice is taken to have
    no capacity beyond its length, so that [headerBytes[:VHD_HEADER_SIZE]]
    panics on a shorter header. *)
Definition CreatePageBlob (c : dyskclient) (sizeGB : Z) (container pageBlobName : string)
    (is_vhd : bool) : M (string * option error) :=
  err <~ ensureBlobService c ;;
  match err with
  | Some e => ret (EmptyString, Some e)
  | None =>
      let sizeBytes := to_uint64 (sizeGB * 1024 * 1024 * 1024) in
      err <~ call (EvCreateIfNotExists container) (CreateIfNotExists w container) ;;
      match err with
      | Some e => ret (EmptyString, Some e)
      | None =>
          let contentLength := to_int64 sizeBytes in
          err <~ call (EvPutPageBlob container pageBlobName contentLength)
                      (PutPageBlob w container pageBlobName contentLength) ;;
          match err with
          | Some e => ret (EmptyString, Some e)
          | None =>
              (* is it vhd? *)
              match FixedHeaderBytes w sizeBytes with
              | inr e => ret (EmptyString, Some e)
              | inl headerBytes =>
                  let first := to_uint64 (sizeBytes - len_bytes headerBytes) in
                  let last := to_uint64 (sizeBytes - 1) in
                  data <~ lift (if len_bytes headerBytes <? VHD_HEADER_SIZE
                                then Panic (SliceBoundsOutOfRange VHD_HEADER_SIZE
                                                                  (len_bytes headerBytes))
                                else Ret (firstn (Z.to_nat VHD_HEADER_SIZE) headerBytes)) ;;
                  err <~ call (EvWriteRange container pageBlobName first last data)
                              (WriteRange w container pageBlobName first last data) ;;
                  match err with
                  | Some e => ret (EmptyString, Some e)
                  | None =>
                      (* lease it *)
                      r <~ call (EvAcquireLease container pageBlobName)
                                (AcquireLease w container pageBlobName) ;;
                      match r with
                      | inr e => ret (EmptyString, Some e)
                      | inl leaseId => ret (leaseId, None)
                      end
                  end
              end
          end
      end
  end.

Definition set_pageblob_size (c : dyskclient) (d : Dysk) : M (Dysk * option error) :=
  _ <~ ensureBlobService c ;;
  r <~ call (EvGetProperties (Path d) (LeaseId d)) (GetProperties w (Path d) (LeaseId d)) ;;
  match r with
  | inr e => ret (d, Some e)
  | inl (contentLength, _) =>
      ret (set_SizeGB d (to_int64 (Z.quot contentLength (1024 * 1024 * 1024))), None)
  end.

Definition validateLease (d : Dysk) : M (option error) :=
  r <~ call (EvContainerExists (Path d)) (ContainerExists w (Path d)) ;;
  match r with
  | inr e => ret (Some e)
  | inl false => ret (Some (Errorf ("Container at " ++ Path d ++ " does not exist")))
  | inl true =>
      r <~ call (EvBlobExists (Path d)) (BlobExists w (Path d)) ;;
      match r with
      | inr e => ret (Some e)
      | inl false => ret (Some (Errorf ("Blob at " ++ Path d ++ " does not exist")))
      | inl true =>
          r <~ call (EvGetProperties (Path d) (LeaseId d))
                    (GetProperties w (Path d) (LeaseId d)) ;;
          match r with
          | inr e => ret (Some e)
          | inl (_, false) => ret (Some (Errorf "This blob is not a page blob"))
          | inl (_, true) =>
              (* if dysk is readonly then we are done now *)
              if String.eqb ReadOnly (Type_ d) then ret None
              else call (EvSetMetadata (Path d) (LeaseId d))
                        (SetMetadata w (Path d) (LeaseId d))
          end
      end
  end.

Definition validateDysk (d : Dysk) : M (Dysk * option error) :=
  if (len (Type_ d) =? 0)
     || (negb (String.eqb ReadOnly (Type_ d)) && negb (String.eqb ReadWrite (Type_ d)))
  then ret (d, Some (Errorf "Invalid type. Must be R or RW"))
  else if (len (Name d) =? 0) || (32 <? len (Name d))
  then ret (d, Some (Errorf "Invalid name. Only max of(32) chars"))
  else if Contains (Name d) "/" || Contains (Name d) "\" || Contains (Name d) "."
  then ret (d, Some (Errorf "Invalid name. Must not contain \ / ."))
  else if sectorCount d =? 0
  then ret (d, Some (Errorf "Invalid Sector count."))
  else if (len (AccountName d) =? 0) || (256 <? len (AccountName d))
  then ret (d, Some (Errorf "Invalid Account name. Must be <= than 256"))
  else if (len (AccountKey d) =? 0) || (128 <? len (AccountKey d))
  then ret (d, Some (Errorf "Invalid AccountKey. Must be <= 64"))
  else
    (* the decode error is turned into an error value that is not returned *)
    let _ :=
      if Base64.DecodeString_ok (AccountKey d) then None
      else Some (Errorf "Invalid account key. Must be a base64 encoded string.") in
    if (len (Path d) =? 0) || (1024 <? len (Path d))
    then ret (d, Some (Errorf "Invalid path. Must be <= 1024"))
    else if (0 <? len (host d)) && (512 <? len (host d))
    then ret (d, Some (Errorf "Invalid host. Must be <= 512"))
    else
      (* Won't support sovereign clouds for now *)
      let d := set_host d (AccountName d ++ ".blob.core.windows.net") in
      if (len (LeaseId d) =? 0) || (64 <? len (LeaseId d))
      then ret (d, Some (Errorf "Invalid Lease Id. Must be <= 32"))
      else
        r <~ call (EvLookupIP (host d)) (LookupIP w (host d)) ;;
        match r with
        | inr _ => ret (d, Some (Errorf ("Failed to lookup ip for host:" ++ host d)))
        | inl addr =>
            a0 <~ lift (index addr 0) ;;
            let d := set_ip d a0 in
            err <~ validateLease d ;;
            ret (d, err)
        end.

Definition pre_mount (c : dyskclient) (d : Dysk) : M (Dysk * option error) :=
  let d := set_account d (storageAccountName c) (storageAccountKey c) in
  '(d, _) <~ set_pageblob_size c d ;;
  let byteSize := to_int64 (SizeGB d * (1024 * 1024 * 1024)) in
  let byteSize := if Vhd d then to_int64 (byteSize - VHD_HEADER_SIZE) else byteSize in
  let d := set_sectorCount d (to_uint64 (Z.quot byteSize 512)) in
  validateDysk d.

(** Convert sector count to size *)
Definition post_get (d : Dysk) : Dysk :=
  let byteSize := to_uint64 (sectorCount d * 512) in
  let byteSize := if Vhd d then to_uint64 (byteSize + VHD_HEADER_SIZE) else byteSize in
  set_SizeGB d (to_int64 (byteSize / (1024 * 1024 * 1024))).

(** One ioctl exchange on the open device: errno and the buffer afterwards. *)
Definition Syscall_IOCTL (code : Z) (buffer : list byte) : M (Z * list byte) :=
  let '(e, written) := ioctl w code buffer in
  call (EvIoctl code buffer) (e, overwrite buffer written).

Definition NUL : ascii := ascii_of_byte x00.

Definition get (deviceName : string) : M (Dysk + error) :=
  let newName := (deviceName ++ String LF (String NUL EmptyString))%string in
  buffer <~ lift (bufferize newName) ;;
  '(e, buffer) <~ Syscall_IOCTL IOCTGETDYSK buffer ;;
  if negb (e =? 0) then ret (inr (Errno e))
  else
    res <~ lift (parseResponse buffer) ;;
    if is_error res then ret (inr (Errorf (response res)))
    else lift (string2dysk (response res)).

Definition Mount (c : dyskclient) (d : Dysk) : M (Dysk * option error) :=
  err <~ openDeviceFile ;;
  match err with
  | Some e => ret (d, Some e)
  | None =>
      defer closeDeviceFile (
        '(d, err) <~ pre_mount c d ;;
        match err with
        | Some e => ret (d, Some e)
        | None =>
            let as_string := dysk2string d in
            buffer <~ lift (bufferize as_string) ;;
            '(e, buffer) <~ Syscall_IOCTL IOCTLMOUNTDYSK buffer ;;
            if negb (e =? 0) then ret (d, Some (Errno e))
            else
              res <~ lift (parseResponse buffer) ;;
              if is_error res then ret (d, Some (Errorf (response res)))
              else
                r <~ lift (string2dysk (response res)) ;;
                match r with
                | inr e => ret (d, Some e)
                | inl newdysk => ret (set_devnums d (Major newdysk) (Minor newdysk), None)
                end
        end)
  end.

(** The body of [List]'s loop over [splitNames], from index [idx] on;
    [last] is [len(splitNames) - 1]. *)
Fixpoint List_loop (names : list string) (idx last : Z) (dysks : list Dysk)
    : M (list Dysk + error) :=
  match names with
  | [] => ret (inl dysks)
  | name :: rest =>
      if idx =? last then ret (inl dysks)
      else
        r <~ get name ;;
        match r with
        | inr e => ret (inr e)
        | inl d => List_loop rest (idx + 1) last (dysks ++ [post_get d])
        end
  end.

Definition List : M (list Dysk + error) :=
  err <~ openDeviceFile ;;
  match err with
  | Some e => ret (inr e)
  | None =>
      defer closeDeviceFile (
        buffer <~ lift (bufferize "-") ;;
        '(e, buffer) <~ Syscall_IOCTL IOCTLISTDYYSKS buffer ;;
        if negb (e =? 0) then ret (inr (Errno e))
        else
          res <~ lift (parseResponse buffer) ;;
          if is_error res then ret (inr (Errorf (response res)))
          else
            let splitNames := Split (response res) LF in
            List_loop splitNames 0 (Z.of_nat (List.length splitNames) - 1) [])
  end.

(** Modelled from the spec: [isValidDeviceName] is a function of the package
    that is not under src/ (the spec asks a name of 1 to 32 characters without
    path separator or dot); [Unmount] and [Get] are read for any such check. *)
Variable isValidDeviceName : string -> option error.

Definition Unmount (name : string) : M (option error) :=
  match isValidDeviceName name with
  | Some e => ret (Some e)
  | None =>
      err <~ openDeviceFile ;;
      match err with
      | Some e => ret (Some e)
      | None =>
          defer closeDeviceFile (
            let newName := (name ++ String LF (String NUL EmptyString))%string in
            buffer <~ lift (bufferize newName) ;;
            '(e, buffer) <~ Syscall_IOCTL IOCTLUNMOUNTDYSK buffer ;;
            if negb (e =? 0) then ret (Some (Errno e))
            else
              res <~ lift (parseResponse buffer) ;;
              if is_error res then ret (Some (Errorf (response res)))
              else ret None)
      end
  end.

Definition Get (deviceName : string) : M (Dysk + error) :=
  match isValidDeviceName deviceName with
  | Some e => ret (inr e)
  | None =>
      err <~ openDeviceFile ;;
      match err with
      | Some e => ret (inr e)
      | None =>
          defer closeDeviceFile (
            r <~ get deviceName ;;
            match r with
            | inr e => ret (inr e)
            | inl d => ret (inl (post_get d))
            end)
      end
  end.

End Operations.
End Client.

(** ** Vocabulary of the properties *)
Module Vocabulary.

Import Go Strings Strconv Client.

(** Value of a string of decimal digits read from the left, [n] the value
    so far; [None] when a byte is not a digit. *)
Fixpoint decimal (s : string) (n : Z) : option Z :=
  match s with
  | EmptyString => Some n
  | String c s' =>
      match digit_val c with
      | None => None
      | Some d => decimal s' (n * 10 + d)
      end
  end.

(** No text field of the descriptor holds a line feed. *)
Definition newline_free (d : Dysk) : Prop :=
  Contains (Type_ d) LF = false /\ Contains (Name d) LF = false
  /\ Contains (AccountName d) LF = false /\ Contains (AccountKey d) LF = false
  /\ Contains (Path d) LF = false /\ Contains (host d) LF = false
  /\ Contains (ip d) LF = false /\ Contains (LeaseId d) LF = false.

(** The text fields are within the lengths the validator declares. *)
Definition within_bounds (d : Dysk) : Prop :=
  1 <= len (Name d) <= 32 /\ 1 <= len (AccountName d) <= 256
  /\ 1 <= len (AccountKey d) <= 128 /\ 1 <= len (Path d) <= 1024
  /\ len (host d) <= 512 /\ 1 <= len (LeaseId d) <= 64.

(** The layout [string2dysk] reads: the nine leading fields of
    [dysk2string], then major, minor and the vhd flag, one per line. *)
Definition twelve_lines (d : Dysk) (major minor : Z) : string :=
  (Type_ d ++ newline ++ Name d ++ newline
   ++ FormatUint (sectorCount d) ++ newline
   ++ AccountName d ++ newline ++ AccountKey d ++ newline
   ++ Path d ++ newline ++ host d ++ newline ++ ip d ++ newline
   ++ LeaseId d ++ newline ++ FormatInt major ++ newline
   ++ FormatInt minor ++ newline
   ++ FormatInt (if Vhd d then 1 else 0) ++ newline)%string.

(** The device names asked of the driver: the first line of the buffer of
    every get-one ioctl of a trace, in order. *)
Fixpoint first_line (l : list byte) : list byte :=
  match l with
  | [] => []
  | b :: rest => if Byte.eqb b x0a then [] else b :: first_line rest
  end.

Definition queried_names (t : list event) : list string :=
  flat_map (fun e =>
              match e with
              | EvIoctl code buffer =>
                  if code =? IOCTGETDYSK
                  then [string_of_list_byte (first_line buffer)] else []
              | _ => []
              end) t.

(** Get each name in turn, accumulating normalized descriptors; the first
    failure aborts with that error. *)
Fixpoint get_each (VHD_HEADER_SIZE : Z) (w : World) (names : list string)
    (dysks : list Dysk) : M (list Dysk + error) :=
  match names with
  | [] => ret (inl dysks)
  | name :: rest =>
      r <~ get w name ;;
      match r with
      | inr e => ret (inr e)
      | inl d => get_each VHD_HEADER_SIZE w rest (dysks ++ [post_get VHD_HEADER_SIZE d])
      end
  end.

(** The request buffer of [List]. *)
Definition list_request : list byte := x2d :: repeat x00 2047.

(** The field checks of [validateDysk] on what the caller and the client
    supply: type, name, account name, account key length, path, host
    length and lease id. *)
Definition supplied_fields_ok (ReadOnly ReadWrite : DyskType) (c : dyskclient)
    (d : Dysk) : bool :=
  negb ((len (Type_ d) =? 0)
        || (negb (String.eqb ReadOnly (Type_ d))
            && negb (String.eqb ReadWrite (Type_ d))))
  && negb ((len (Name d) =? 0) || (32 <? len (Name d)))
  && negb (Contains (Name d) "/" || Contains (Name d) "\" || Contains (Name d) ".")
  && negb ((len (storageAccountName c) =? 0) || (256 <? len (storageAccountName c)))
  && negb ((len (storageAccountKey c) =? 0) || (128 <? len (storageAccountKey c)))
  && negb ((len (Path d) =? 0) || (1024 <? len (Path d)))
  && negb ((0 <? len (host d)) && (512 <? len (host d)))
  && negb ((len (LeaseId d) =? 0) || (64 <? len (LeaseId d))).

(** The messages of the field checks of [validateDysk]. *)
Definition field_messages : list string :=
  ["Invalid type. Must be R or RW";
   "Invalid name. Only max of(32) chars";
   "Invalid name. Must not contain \ / .";
   "Invalid Sector count.";
   "Invalid Account name. Must be <= than 256";
   "Invalid AccountKey. Must be <= 64";
   "Invalid path. Must be <= 1024";
   "Invalid host. Must be <= 512";
   "Invalid Lease Id. Must be <= 32"].

(** *** Sample inputs.  Where a constant is needed the samples take the
    header to be 512 bytes long and the two types to be "R" and "RW", the
    names the validator's message gives them. *)

(** A read-write descriptor as a caller fills it in, within every bound. *)
Definition disk1 : Dysk :=
  {| Type_ := "RW"; Name := "disk1"; sectorCount := 2097152;
     AccountName := "acct"; AccountKey := "a2V5"; Path := "/dysks/disk1";
     host := "acct.blob.core.windows.net"; ip := "10.0.0.4";
     LeaseId := "lease-1"; Major := 0; Minor := 0; Vhd := false; SizeGB := 0 |}.


Definition bytes (s : string) : list byte := list_byte_of_string s.

(** A driver that knows two disks and answers every get-one with a
    descriptor; its list reply ends with an empty line. *)
Definition driver (code : Z) (buffer : list byte) : Z * list byte :=
  if code =? IOCTLISTDYYSKS
  then (0, bytes ("OK" ++ newline ++ "diskA" ++ newline ++ "diskB" ++ newline ++ newline))
  else (0, bytes ("OK" ++ newline ++ twelve_lines disk1 252 0)).

(** What [parseResponse] leaves of that list reply in a 2048-byte buffer:
    the names, the empty line, and the untouched zero padding. *)
Definition list_payload : string :=
  ("diskA" ++ newline ++ "diskB" ++ newline ++ newline
   ++ string_of_list_byte (repeat x00 2032))%string.

(** The same driver, refusing the empty device name. *)
Definition strict_driver (code : Z) (buffer : list byte) : Z * list byte :=
  if code =? IOCTGETDYSK
  then match buffer with
       | x0a :: _ => (0, bytes ("ERR" ++ newline ++ "no such dysk" ++ newline))
       | _ => driver code buffer
       end
  else driver code buffer.

(** A store in which every call succeeds and which answers the property
    fetch with [props], and a resolver. *)
Definition cloud (drv : Z -> list byte -> Z * list byte)
    (props : (Z * bool) + error) : World :=
  {| os_Open := None;
     ioctl := drv;
     NewBasicClient := fun _ _ => None;
     CreateIfNotExists := fun _ => None;
     PutPageBlob := fun _ _ _ => None;
     FixedHeaderBytes := fun _ => inl (repeat x00 512);
     WriteRange := fun _ _ _ _ _ => None;
     AcquireLease := fun _ _ => inl "lease-1";
     GetProperties := fun _ _ => props;
     ContainerExists := fun _ => inl true;
     BlobExists := fun _ => inl true;
     SetMetadata := fun _ _ => None;
     LookupIP := fun _ => inl ["10.0.0.4"] |}.

(** A store whose property fetch fails. *)
Definition no_props : (Z * bool) + error := inr (StorageError "lease mismatch").

Definition acct : dyskclient :=
  {| storageAccountName := "acct"; storageAccountKey := "a2V5" |}.

Definition with_name (d : Dysk) (n : string) : Dysk :=
  {| Type_ := Type_ d; Name := n; sectorCount := sectorCount d;
     AccountName := AccountName d; AccountKey := AccountKey d; Path := Path d;
     host := host d; ip := ip d; LeaseId := LeaseId d;
     Major := Major d; Minor := Minor d; Vhd := Vhd d; SizeGB := SizeGB d |}.

Definition with_vhd (d : Dysk) (v : bool) (sizeGB : Z) : Dysk :=
  {| Type_ := Type_ d; Name := Name d; sectorCount := sectorCount d;
     AccountName := AccountName d; AccountKey := AccountKey d; Path := Path d;
     host := host d; ip := ip d; LeaseId := LeaseId d;
     Major := Major d; Minor := Minor d; Vhd := v; SizeGB := sizeGB |}.

(** *** Vocabulary of the further properties *)

(** No call of the computation satisfies [p]. *)
Definition quiet {A : Type} (p : event -> bool) (m : M A) : Prop :=
  Forall (fun e => p e = false) (fst m).

(** Opening and closing the device file. *)
Definition is_device_call (e : event) : bool :=
  match e with
  | EvOpen | EvClose => true
  | _ => false
  end.

Definition is_metadata_write (e : event) : bool :=
  match e with
  | EvSetMetadata _ _ => true
  | _ => false
  end.

(** The request of a get-one or unmount command: the name, a line feed and
    a zero byte. *)
Definition name_request (name : string) : string :=
  (name ++ String LF (String NUL EmptyString))%string.


(** A name check that accepts every name, and one that accepts none. *)
Definition any_name (name : string) : option error := None.
Definition no_name (name : string) : option error :=
  Some (Errorf "Invalid name").

(** A driver that answers every command with an empty success reply. *)
Definition quiet_driver (code : Z) (buffer : list byte) : Z * list byte :=
  (0, bytes ("OK" ++ newline)).

(** A driver that reports success and writes nothing. *)
Definition silent_driver (code : Z) (buffer : list byte) : Z * list byte :=
  (0, []).

(** The buffer of a get-one or unmount request for a short name. *)
Definition request_buffer (name : string) : list byte :=
  list_byte_of_string (name_request name)
  ++ repeat x00 (2048 - String.length (name_request name)).

(** The reply of [driver] to a get-one or mount command. *)
Definition disk_reply : list byte :=
  bytes ("OK" ++ newline ++ twelve_lines disk1 252 0).


(** The panic of [make] on a negative length. *)
Definition is_alloc_panic (p : panic) : bool :=
  match p with
  | MakeSliceLenOutOfRange _ => true
  | _ => false
  end.

End Vocabulary.

(** * Properties *)

(** ** Strings and byte slices *)
Module StringsFacts.

Import Go Strings.

Lemma sob_cons (b : byte) (l : list byte) :
  string_of_list_byte (b :: l) = String (ascii_of_byte b) (string_of_list_byte l).
Proof. reflexivity. Qed.

Lemma sob_app (l1 l2 : list byte) :
  string_of_list_byte (l1 ++ l2)
  = (string_of_list_byte l1 ++ string_of_list_byte l2)%string.
Proof.
  induction l1 as [|b l1 IH]; [reflexivity|].
  rewrite <- app_comm_cons, !sob_cons, IH. reflexivity.
Qed.

Lemma sob_length (l : list byte) :
  String.length (string_of_list_byte l) = List.length l.
Proof.
  induction l as [|b l IH]; [reflexivity|].
  rewrite sob_cons. simpl. now rewrite IH.
Qed.

Lemma bos_length (s : string) :
  List.length (list_byte_of_string s) = String.length s.
Proof.
  rewrite <- (string_of_list_byte_of_string s) at 2.
  now rewrite sob_length.
Qed.

Lemma ascii_of_byte_LF (b : byte) :
  Ascii.eqb (ascii_of_byte b) LF = true <-> b = x0a.
Proof.
  unfold LF. rewrite Ascii.eqb_eq. split.
  - intros H. apply (f_equal byte_of_ascii) in H.
    now rewrite !byte_of_ascii_of_byte in H.
  - now intros ->.
Qed.

Lemma append_length (s1 s2 : string) :
  String.length (s1 ++ s2) = (String.length s1 + String.length s2)%nat.
Proof. induction s1 as [|c s1 IH]; simpl; [reflexivity|now rewrite IH]. Qed.

Lemma append_assoc (s1 s2 s3 : string) :
  ((s1 ++ s2) ++ s3 = s1 ++ (s2 ++ s3))%string.
Proof. induction s1 as [|c s1 IH]; simpl; [reflexivity|now rewrite IH]. Qed.

Lemma substring_all (s : string) : substring 0 (String.length s) s = s.
Proof. induction s as [|c s IH]; simpl; [reflexivity|now rewrite IH]. Qed.

Lemma substring_head (s1 s2 : string) :
  substring 0 (String.length s1) (s1 ++ s2) = s1.
Proof.
  induction s1 as [|c s1 IH]; simpl.
  - destruct s2; reflexivity.
  - now rewrite IH.
Qed.

Lemma substring_tail (s1 s2 : string) :
  substring (String.length s1) (String.length s2) (s1 ++ s2) = s2.
Proof.
  induction s1 as [|c s1 IH]; simpl; [apply substring_all|exact IH].
Qed.

Lemma slice_to_head (p q : string) : slice_to (p ++ q) (len p) = Ret p.
Proof.
  unfold slice_to, len. rewrite append_length.
  destruct (Z.ltb_spec (Z.of_nat (String.length p)) 0) as [E|E]; [lia|].
  destruct (Z.ltb_spec (Z.of_nat (String.length p + String.length q))
                       (Z.of_nat (String.length p))) as [E'|E']; [lia|].
  unfold orb. rewrite Nat2Z.id. now rewrite substring_head.
Qed.

Lemma slice_from_tail (p q : string) (c : ascii) :
  slice_from (p ++ String c q) (len p + 1) = Ret q.
Proof.
  unfold slice_from, len. rewrite append_length. cbn [String.length].
  destruct (Z.ltb_spec (Z.of_nat (String.length p) + 1) 0) as [E|E]; [lia|].
  destruct (Z.ltb_spec (Z.of_nat (String.length p + S (String.length q)))
                       (Z.of_nat (String.length p) + 1)) as [E'|E']; [lia|].
  unfold orb.
  replace (Z.to_nat (Z.of_nat (String.length p) + 1))
    with (String.length (p ++ String c "")) by (rewrite append_length; simpl; lia).
  replace (String.length p + S (String.length q)
           - String.length (p ++ String c ""))%nat
    with (String.length q) by (rewrite append_length; simpl; lia).
  replace (p ++ String c q)%string with ((p ++ String c "") ++ q)%string
    by (rewrite append_assoc; reflexivity).
  now rewrite substring_tail.
Qed.

(** [index_from] finds the first line feed of a buffer's text. *)
Lemma index_from_absent (l : list byte) (i : Z) :
  ~ In x0a l -> index_from i (string_of_list_byte l) LF = -1.
Proof.
  revert i. induction l as [|b l IH]; intros i Hn; [reflexivity|].
  rewrite sob_cons. simpl.
  destruct (Ascii.eqb (ascii_of_byte b) LF) eqn:E.
  - apply ascii_of_byte_LF in E. subst b. exfalso. apply Hn. now left.
  - apply IH. intros Hin. apply Hn. now right.
Qed.

Lemma index_from_first (pre post : list byte) (i : Z) :
  ~ In x0a pre ->
  index_from i (string_of_list_byte (pre ++ x0a :: post)) LF
  = i + Z.of_nat (List.length pre).
Proof.
  revert i. induction pre as [|b pre IH]; intros i Hn.
  - simpl app. rewrite sob_cons. simpl. lia.
  - rewrite <- app_comm_cons, sob_cons. simpl index_from.
    destruct (Ascii.eqb (ascii_of_byte b) LF) eqn:E.
    + apply ascii_of_byte_LF in E. subst b. exfalso. apply Hn. now left.
    + rewrite IH by (intros Hin; apply Hn; now right).
      simpl List.length. lia.
Qed.

(** A buffer holding a line feed splits at the first one. *)
Lemma first_line_feed (l : list byte) :
  In x0a l -> exists pre post, l = pre ++ x0a :: post /\ ~ In x0a pre.
Proof.
  induction l as [|b l IH]; intros Hin; [destruct Hin|].
  destruct (Byte.eqb b x0a) eqn:E.
  - apply Byte.byte_dec_bl in E. subst b. exists [], l. split; [reflexivity|intros []].
  - destruct Hin as [->|Hin]; [discriminate E|].
    destruct (IH Hin) as (pre & post & -> & Hn).
    exists (b :: pre), post. split; [reflexivity|].
    intros [->|H]; [discriminate E|now apply Hn].
Qed.

(** Whether a separator occurs does not depend on where counting starts. *)
Lemma index_from_absent_iff (s : string) (sep : ascii) (i j : Z) :
  0 <= i -> 0 <= j -> index_from i s sep = -1 -> index_from j s sep = -1.
Proof.
  revert i j. induction s as [|c s IH]; intros i j Hi Hj; simpl; [reflexivity|].
  destruct (Ascii.eqb c sep); [lia|].
  apply IH; lia.
Qed.

Lemma index_from_ge (s : string) (sep : ascii) (i : Z) :
  index_from i s sep = -1 \/ i <= index_from i s sep.
Proof.
  revert i. induction s as [|c s IH]; intros i; simpl; [now left|].
  destruct (Ascii.eqb c sep); [right; lia|].
  destruct (IH (i + 1)) as [H|H]; [now left|right; lia].
Qed.

Lemma Contains_false (s : string) (sep : ascii) :
  Contains s sep = false <-> Index s sep = -1.
Proof.
  unfold Contains, Index. destruct (index_from_ge s sep 0) as [H|H].
  - rewrite H. split; reflexivity.
  - destruct (Z.leb_spec 0 (index_from 0 s sep)); split; intros; try discriminate; lia.
Qed.

Lemma Contains_cons (c : ascii) (s : string) (sep : ascii) :
  Contains (String c s) sep = false
  <-> Ascii.eqb c sep = false /\ Contains s sep = false.
Proof.
  rewrite !Contains_false. unfold Index. simpl.
  destruct (Ascii.eqb c sep).
  - split; [discriminate|intros [H _]; discriminate H].
  - split.
    + intros H. split; [reflexivity|].
      apply (index_from_absent_iff s sep (0 + 1) 0); [lia|lia|exact H].
    + intros [_ H]. apply (index_from_absent_iff s sep 0 (0 + 1)); [lia|lia|exact H].
Qed.

Lemma Contains_empty (sep : ascii) : Contains EmptyString sep = false.
Proof. reflexivity. Qed.

Lemma Contains_app (s1 s2 : string) (sep : ascii) :
  Contains (s1 ++ s2) sep = false
  <-> Contains s1 sep = false /\ Contains s2 sep = false.
Proof.
  induction s1 as [|c s1 IH]; simpl.
  - split; [intros H; split; [reflexivity|exact H]|intros [_ H]; exact H].
  - rewrite !Contains_cons, IH. tauto.
Qed.

(** [Split] never returns an empty slice. *)
Lemma Split_nonempty (s : string) (sep : ascii) : Split s sep <> [].
Proof.
  destruct s as [|c s]; simpl; [discriminate|].
  destruct (Ascii.eqb c sep); [discriminate|].
  destruct (Split s sep); discriminate.
Qed.

(** A piece without separator, followed by a separator, is the first piece. *)
Lemma Split_piece (s rest : string) (sep : ascii) :
  Contains s sep = false ->
  Split (s ++ String sep rest) sep = s :: Split rest sep.
Proof.
  induction s as [|c s IH]; intros H; simpl.
  - now rewrite Ascii.eqb_refl.
  - apply Contains_cons in H. destruct H as [Hc Hs].
    rewrite Hc, (IH Hs). reflexivity.
Qed.

Lemma Split_last (s : string) (sep : ascii) :
  Contains s sep = false -> Split s sep = [s].
Proof.
  induction s as [|c s IH]; intros H; simpl; [reflexivity|].
  apply Contains_cons in H. destruct H as [Hc Hs].
  rewrite Hc, (IH Hs). reflexivity.
Qed.

End StringsFacts.

(** ** The wire protocol's pure helpers *)
Module WireFacts.

Import Go Strings Strconv Client StringsFacts.

(** C8: for every string [s] shorter than 2048 bytes, [bufferize s] returns a
    buffer of exactly 2048 bytes whose first [len(s)] bytes are the bytes of
    [s] and whose remaining bytes are all zero. *)
Theorem bufferize_pads (s : string) :
  len s < 2048 ->
  exists b,
    bufferize s = Ret b
    /\ len_bytes b = 2048
    /\ firstn (String.length s) b = list_byte_of_string s
    /\ forall i, (String.length s <= i < 2048)%nat -> nth_error b i = Some x00.
Proof.
  intros Hlen. unfold len in Hlen.
  exists (list_byte_of_string s ++ repeat x00 (2048 - String.length s)).
  assert (Hb := bos_length s).
  repeat split.
  - unfold bufferize, make_bytes, len_bytes, IOCTL_IN_OUT_MAX. rewrite Hb.
    destruct (Z.ltb_spec (2048 - Z.of_nat (String.length s)) 0) as [E|E]; [lia|].
    unfold bind. do 3 f_equal. lia.
  - unfold len_bytes. rewrite length_app, repeat_length, Hb. lia.
  - rewrite <- Hb. rewrite firstn_app, firstn_all, Nat.sub_diag. simpl.
    now rewrite app_nil_r.
  - intros i Hi. rewrite nth_error_app2 by lia. rewrite Hb.
    apply nth_error_repeat. lia.
Qed.

Lemma bufferize_pads_witness :
  exists b,
    bufferize "-" = Ret b
    /\ len_bytes b = 2048
    /\ firstn 1 b = [x2d]
    /\ forall i, (1 <= i < 2048)%nat -> nth_error b i = Some x00.
Proof. apply (bufferize_pads "-"). reflexivity. Defined.

(** C9: for a buffer that holds a line feed, [parseResponse] returns
    [is_error] true exactly when the text before the first line feed is
    "ERR", and as payload everything after that line feed; for a buffer that
    holds no line feed it panics with a slice bound out of range. *)
Theorem parseResponse_partial (bytes : list byte) :
  (In x0a bytes ->
   exists pre post r,
     bytes = pre ++ x0a :: post /\ ~ In x0a pre
     /\ parseResponse bytes = Ret r
     /\ (is_error r = true <-> string_of_list_byte pre = "ERR")
     /\ response r = string_of_list_byte post)
  /\ (~ In x0a bytes ->
      parseResponse bytes = Panic (SliceBoundsOutOfRange (-1) (len_bytes bytes))).
Proof.
  split.
  - intros Hin. destruct (first_line_feed bytes Hin) as (pre & post & -> & Hn).
    exists pre, post.
    eexists. split; [reflexivity|]. split; [exact Hn|].
    unfold parseResponse, Index. rewrite index_from_first by exact Hn.
    rewrite sob_app, sob_cons.
    replace (0 + Z.of_nat (List.length pre)) with (len (string_of_list_byte pre))
      by (unfold len; rewrite sob_length; lia).
    rewrite slice_to_head, slice_from_tail. unfold bind.
    split; [reflexivity|]. split; [|reflexivity].
    simpl. apply String.eqb_eq.
  - intros Hn. unfold parseResponse, Index. rewrite index_from_absent by exact Hn.
    unfold slice_to, len, len_bytes. rewrite sob_length. reflexivity.
Qed.

Lemma parseResponse_partial_witness :
  (exists pre post r,
      [x45; x52; x52; x0a; x6e; x6f; x0a] = pre ++ x0a :: post /\ ~ In x0a pre
      /\ parseResponse [x45; x52; x52; x0a; x6e; x6f; x0a] = Ret r
      /\ (is_error r = true <-> string_of_list_byte pre = "ERR")
      /\ response r = string_of_list_byte post)
  /\ parseResponse [x4f; x4b] = Panic (SliceBoundsOutOfRange (-1) 2).
Proof.
  split.
  - apply (parseResponse_partial [x45; x52; x52; x0a; x6e; x6f; x0a]).
    simpl. tauto.
  - apply (parseResponse_partial [x4f; x4b]).
    simpl. intros [H|[H|[]]]; discriminate H.
Defined.

End WireFacts.

(** ** Decimal parsing and printing *)
Module StrconvFacts.

Import Go Strings Strconv Vocabulary StringsFacts.

Lemma digit_val_range (c : ascii) (d : Z) : digit_val c = Some d -> 0 <= d <= 9.
Proof.
  unfold digit_val.
  destruct (Z.leb_spec 48 (Z.of_N (N_of_ascii c)));
    destruct (Z.leb_spec (Z.of_N (N_of_ascii c)) 57); simpl; intros [= <-]; lia.
Qed.

Lemma digit_cases (d : Z) :
  0 <= d < 10 ->
  d = 0 \/ d = 1 \/ d = 2 \/ d = 3 \/ d = 4 \/ d = 5 \/ d = 6 \/ d = 7 \/ d = 8 \/ d = 9.
Proof. lia. Qed.

Lemma digit_val_char (d : Z) : 0 <= d < 10 -> digit_val (digit_char d) = Some d.
Proof.
  intros H. destruct (digit_cases d H) as [->|[->|[->|[->|[->|[->|[->|[->|[->| ->]]]]]]]]];
    reflexivity.
Qed.

Lemma decimal_lower (s : string) (n v : Z) : 0 <= n -> decimal s n = Some v -> n <= v.
Proof.
  revert n. induction s as [|c s IH]; simpl; intros n Hn H.
  - injection H as <-. lia.
  - destruct (digit_val c) as [d|] eqn:E; [|discriminate].
    apply digit_val_range in E. apply IH in H; lia.
Qed.

Lemma decimal_app (s1 s2 : string) (n : Z) :
  decimal (s1 ++ s2) n
  = match decimal s1 n with Some m => decimal s2 m | None => None end.
Proof.
  revert n. induction s1 as [|c s1 IH]; simpl; intros n; [reflexivity|].
  destruct (digit_val c); [apply IH|reflexivity].
Qed.

(** On a digit string whose value fits 64 bits the loop of [ParseUint]
    reports no error and returns the value. *)
Lemma parse_digits_decimal (s : string) (n v : Z) :
  0 <= n -> decimal s n = Some v -> v < 2 ^ 64 -> parse_digits s n = (v, None).
Proof.
  revert n. induction s as [|c s IH]; cbn [parse_digits decimal]; intros n Hn H Hv.
  - now injection H as <-.
  - destruct (digit_val c) as [d|] eqn:E; [|discriminate].
    apply digit_val_range in E.
    assert (Hle : n * 10 + d <= v) by (apply (decimal_lower s); [lia|exact H]).
    assert (Hc : maxUint64 / 10 + 1 = 1844674407370955162) by reflexivity.
    assert (Hmax : maxUint64 = 18446744073709551615) by reflexivity.
    assert (H64 : 2 ^ 64 = 18446744073709551616) by reflexivity.
    rewrite Hc, Hmax. rewrite H64 in Hv.
    destruct (Z.leb_spec 1844674407370955162 n) as [L|L]; [lia|].
    assert (Hw : to_uint64 (n * 10 + d) = n * 10 + d).
    { unfold to_uint64. apply Z.mod_small. lia. }
    cbv zeta. rewrite Hw.
    destruct (Z.ltb_spec (n * 10 + d) (n * 10)) as [L1|L1]; [lia|].
    destruct (Z.ltb_spec 18446744073709551615 (n * 10 + d)) as [L2|L2]; [lia|].
    unfold orb. apply IH; [lia|exact H|lia].
Qed.

(** [format_bits] writes the decimal digits of [u] in front of [acc]. *)
Lemma format_bits_digits (fuel : nat) (u : Z) (acc : string) :
  0 <= u < 10 ^ Z.of_nat (S fuel) ->
  exists c ds,
    format_bits (S fuel) u acc = (String c ds ++ acc)%string
    /\ decimal (String c ds) 0 = Some u
    /\ Contains (String c ds) LF = false.
Proof.
  revert u acc. induction fuel as [|fuel IH]; intros u acc Hu.
  - change (10 ^ Z.of_nat 1) with 10 in Hu. simpl.
    destruct (Z.ltb_spec u 10) as [L|L]; [|lia].
    exists (digit_char u), EmptyString. split; [reflexivity|].
    destruct (digit_cases u Hu) as [->|[->|[->|[->|[->|[->|[->|[->|[->| ->]]]]]]]]];
      split; reflexivity.
  - cbn [format_bits].
    destruct (Z.ltb_spec u 10) as [L|L].
    + exists (digit_char u), EmptyString. split; [reflexivity|].
      assert (Hu' : 0 <= u < 10) by lia.
      destruct (digit_cases u Hu') as [->|[->|[->|[->|[->|[->|[->|[->|[->| ->]]]]]]]]];
        split; reflexivity.
    + assert (Hq : 0 <= u / 10 < 10 ^ Z.of_nat (S fuel)).
      { split; [apply Z.div_pos; lia|].
        apply Z.div_lt_upper_bound; [lia|].
        replace (Z.of_nat (S (S fuel))) with (Z.of_nat (S fuel) + 1) in Hu by lia.
        rewrite Z.pow_add_r in Hu by lia. lia. }
      destruct (IH (u / 10) (String (digit_char (u mod 10)) acc) Hq)
        as (c & ds & Heq & Hdec & Hnl).
      exists c, (ds ++ String (digit_char (u mod 10)) EmptyString)%string.
      assert (Hm : 0 <= u mod 10 < 10) by (apply Z.mod_pos_bound; lia).
      split; [|split].
      * cbn [format_bits] in Heq. rewrite Heq. simpl.
        now rewrite StringsFacts.append_assoc.
      * change (String c (ds ++ String (digit_char (u mod 10)) ""))
          with (String c ds ++ String (digit_char (u mod 10)) "")%string.
        rewrite decimal_app, Hdec. simpl.
        rewrite digit_val_char by exact Hm. f_equal.
        rewrite (Z.div_mod u 10) at 3 by lia. lia.
      * apply Contains_cons in Hnl. destruct Hnl as [Hc Hds].
        apply Contains_cons. split; [exact Hc|].
        apply Contains_app. split; [exact Hds|].
        apply Contains_cons. split; [|reflexivity].
        destruct (digit_cases (u mod 10) Hm)
          as [->|[->|[->|[->|[->|[->|[->|[->|[->| ->]]]]]]]]]; reflexivity.
Qed.

Lemma append_empty_r (s : string) : (s ++ "")%string = s.
Proof. induction s as [|c s IH]; simpl; [reflexivity|now rewrite IH]. Qed.

Lemma FormatUint_digits (u : Z) :
  0 <= u < 2 ^ 64 ->
  exists c ds,
    FormatUint u = String c ds
    /\ decimal (String c ds) 0 = Some u
    /\ Contains (String c ds) LF = false.
Proof.
  intros Hu.
  assert (H10 : 0 <= u < 10 ^ Z.of_nat 20).
  { change (10 ^ Z.of_nat 20) with 100000000000000000000.
    change (2 ^ 64) with 18446744073709551616 in Hu. lia. }
  destruct (format_bits_digits 19 u EmptyString H10) as (c & ds & Heq & Hdec & Hnl).
  exists c, ds. unfold FormatUint. rewrite Heq, append_empty_r. now split.
Qed.

(** Parsing inverts printing on [uint64]. *)
Lemma ParseUint_FormatUint (u : Z) :
  0 <= u < 2 ^ 64 -> ParseUint (FormatUint u) = (u, None).
Proof.
  intros Hu. destruct (FormatUint_digits u Hu) as (c & ds & -> & Hdec & _).
  unfold ParseUint. apply parse_digits_decimal; [lia|exact Hdec|lia].
Qed.

Lemma FormatUint_newline_free (u : Z) :
  0 <= u < 2 ^ 64 -> Contains (FormatUint u) LF = false.
Proof.
  intros Hu. destruct (FormatUint_digits u Hu) as (c & ds & -> & _ & H). exact H.
Qed.

Lemma digit_not_sign (c : ascii) (d : Z) :
  digit_val c = Some d ->
  Ascii.eqb c "+"%char = false /\ Ascii.eqb c "-"%char = false.
Proof.
  intros H. split.
  - destruct (Ascii.eqb c "+"%char) eqn:E; [|reflexivity].
    apply Ascii.eqb_eq in E. subst c. discriminate H.
  - destruct (Ascii.eqb c "-"%char) eqn:E; [|reflexivity].
    apply Ascii.eqb_eq in E. subst c. discriminate H.
Qed.

(** Parsing inverts printing on 64-bit [int]. *)
Lemma ParseInt_FormatInt (i : Z) :
  - 2 ^ 63 <= i < 2 ^ 63 -> ParseInt (FormatInt i) = (i, None).
Proof.
  intros Hi. unfold FormatInt.
  assert (H63 : 2 ^ 63 = 9223372036854775808) by reflexivity.
  assert (H64 : 2 ^ 64 = 18446744073709551616) by reflexivity.
  destruct (Z.ltb_spec i 0) as [L|L].
  - unfold ParseInt. cbn [Ascii.eqb Bool.eqb andb orb].
    rewrite ParseUint_FormatUint by lia. cbv zeta. cbn [negb andb].
    destruct (Z.ltb_spec (2 ^ 63) (- i)) as [L1|L1]; [lia|].
    f_equal. unfold to_int64. rewrite H63, H64 in *.
    destruct (Z.eq_dec i (- 9223372036854775808)) as [->|Hne]; [reflexivity|].
    rewrite (Z.mod_small (- i + 9223372036854775808)) by lia.
    replace (- (- i + 9223372036854775808 - 9223372036854775808)
             + 9223372036854775808) with (i + 9223372036854775808) by lia.
    rewrite Z.mod_small by lia. lia.
  - destruct (FormatUint_digits i) as (c & ds & Heq & Hdec & _); [lia|].
    assert (Hp := ParseUint_FormatUint i ltac:(lia)).
    rewrite Heq in *. unfold ParseInt.
    assert (Hd : exists d, digit_val c = Some d).
    { cbn [decimal] in Hdec. destruct (digit_val c) as [d|]; [now exists d|discriminate]. }
    destruct Hd as (d & Hd). destruct (digit_not_sign c d Hd) as [Hplus Hminus].
    rewrite Hplus, Hminus. cbn [orb]. rewrite Hp. cbv zeta. cbn [negb andb].
    destruct (Z.leb_spec (2 ^ 63) i) as [L1|L1]; [lia|].
    f_equal. unfold to_int64. rewrite H63, H64 in *.
    rewrite Z.mod_small by lia. lia.
Qed.

Lemma FormatInt_newline_free (i : Z) :
  - 2 ^ 63 <= i < 2 ^ 63 -> Contains (FormatInt i) LF = false.
Proof.
  intros Hi. unfold FormatInt.
  assert (H63 : 2 ^ 63 = 9223372036854775808) by reflexivity.
  assert (H64 : 2 ^ 64 = 18446744073709551616) by reflexivity.
  destruct (Z.ltb_spec i 0) as [L|L].
  - apply Contains_cons. split; [reflexivity|].
    apply FormatUint_newline_free. lia.
  - apply FormatUint_newline_free. lia.
Qed.

End StrconvFacts.

(** ** The codec *)
Module CodecFacts.

Import Go Strings Strconv Client Vocabulary StringsFacts StrconvFacts.

Lemma newline_append (s : string) : (newline ++ s)%string = String LF s.
Proof. reflexivity. Qed.

Ltac split_pieces :=
  rewrite ?newline_append; unfold newline;
  repeat (rewrite Split_piece
            by first [ assumption
                     | apply FormatUint_newline_free; assumption
                     | apply FormatInt_newline_free; assumption
                     | apply FormatInt_newline_free; lia ]).

Lemma flag_range (b : bool) : - 2 ^ 63 <= (if b then 1 else 0) < 2 ^ 63.
Proof. destruct b; split; reflexivity || discriminate. Qed.

(** C1 (as the code has it): for a descriptor without line feed in its
    fields, decoding the encoding does not give the descriptor back but the
    parse error of the minor field: [dysk2string] writes ten lines, the vhd
    flag tenth, and [string2dysk] reads major, minor and the flag from the
    tenth, eleventh and twelfth segments.  What [string2dysk] inverts is the
    twelve-line layout, up to [SizeGB], which it leaves zero. *)
Theorem decode_encode_layout (d : Dysk) :
  newline_free d ->
  0 <= sectorCount d < 2 ^ 64 ->
  string2dysk (dysk2string d) = Ret (inr (NumError "ParseInt" "" ErrSyntax))
  /\ forall major minor,
       - 2 ^ 63 <= major < 2 ^ 63 ->
       - 2 ^ 63 <= minor < 2 ^ 63 ->
       string2dysk (twelve_lines d major minor)
       = Ret (inl (set_devnums (set_SizeGB d 0) major minor)).
Proof.
  intros (H0 & H1 & H3 & H4 & H5 & H6 & H7 & H8) Hsc.
  assert (Hflag := flag_range (Vhd d)).
  split.
  - unfold string2dysk, dysk2string. cbv zeta. split_pieces.
    cbn [index nth_error bind Split].
    rewrite ParseUint_FormatUint by exact Hsc.
    rewrite ParseInt_FormatInt by exact Hflag.
    reflexivity.
  - intros major minor Hmaj Hmin.
    unfold string2dysk, twelve_lines. cbv zeta. split_pieces.
    cbn [index nth_error bind Split].
    rewrite ParseUint_FormatUint by exact Hsc.
    rewrite !ParseInt_FormatInt by assumption.
    destruct d as [t n sc an ak p h i l mj mn v sz]. cbn.
    destruct v; reflexivity.
Qed.

Lemma decode_encode_layout_witness :
  string2dysk (dysk2string disk1) = Ret (inr (NumError "ParseInt" "" ErrSyntax))
  /\ forall major minor,
       - 2 ^ 63 <= major < 2 ^ 63 ->
       - 2 ^ 63 <= minor < 2 ^ 63 ->
       string2dysk (twelve_lines disk1 major minor)
       = Ret (inl (set_devnums (set_SizeGB disk1 0) major minor)).
Proof.
  apply (decode_encode_layout disk1).
  - repeat split; reflexivity.
  - simpl. lia.
Defined.

(** The round trip fails on a descriptor within every declared bound. *)
Lemma decode_encode_not_identity :
  within_bounds disk1 /\ newline_free disk1
  /\ string2dysk (dysk2string disk1) = Ret (inr (NumError "ParseInt" "" ErrSyntax))
  /\ forall d, string2dysk (dysk2string disk1) <> Ret (inl d).
Proof.
  split; [|split; [|split]].
  - unfold within_bounds, len. simpl. lia.
  - repeat split; reflexivity.
  - vm_compute. reflexivity.
  - intros d. vm_compute. discriminate.
Qed.




End CodecFacts.

(** ** The operations *)
Module OperationFacts.

Import Go Strings Strconv Client Vocabulary StringsFacts StrconvFacts.

Section Validation.

Variables ReadOnly ReadWrite : DyskType.
Variable w : World.

Ltac reject_in H :=
  match type of H with
  | (if ?b then _ else _) = _ => destruct b eqn:?; [discriminate H|]
  end.

Ltac known_message :=
  eexists; eexists; split; [|reflexivity]; simpl; tauto.

Ltac reject :=
  match goal with
  | |- exists _, (if ?b then _ else _) = _ =>
      destruct b eqn:?; [solve [eexists; reflexivity]|]
  end.

(** [validateDysk] touches only [host] and [ip]. *)
Lemma validateDysk_keeps_size (d d' : Dysk) (t : list event) (err : option error) :
  validateDysk ReadOnly ReadWrite w d = (t, Ret (d', err)) ->
  SizeGB d' = SizeGB d /\ Vhd d' = Vhd d /\ sectorCount d' = sectorCount d.
Proof.
  unfold validateDysk. intros H.
  repeat match type of H with
         | (if ?b then _ else _) = _ =>
             destruct b eqn:?;
             [injection H as _ <- _; repeat split; reflexivity|]
         end.
  cbv zeta in H.
  repeat match type of H with
         | (if ?b then _ else _) = _ =>
             destruct b eqn:?;
             [injection H as _ <- _; repeat split; reflexivity|]
         end.
  unfold bindM, call, lift in H.
  destruct (LookupIP w _) as [addr|e].
  - destruct (index addr 0) as [a0|p]; [|discriminate H].
    destruct (validateLease ReadOnly w _) as [tl [e|p]]; [|discriminate H].
    injection H as _ <- _. repeat split; reflexivity.
  - injection H as _ <- _. repeat split; reflexivity.
Qed.

(** C4 (as the code has it): validation rejects a host longer than 512
    bytes with an error and before any call; every other host, supplied or
    not, is replaced by the default derived from the account name, so a
    descriptor that passes validation always carries the derived host. *)
Theorem validateDysk_host (d : Dysk) :
  (512 < len (host d) ->
   exists msg,
     validateDysk ReadOnly ReadWrite w d = ([], Ret (d, Some (Errorf msg))))
  /\ (forall t d',
        validateDysk ReadOnly ReadWrite w d = (t, Ret (d', None)) ->
        len (host d) <= 512
        /\ host d' = (AccountName d ++ ".blob.core.windows.net")%string).
Proof.
  split.
  - intros Hlong. unfold validateDysk, ret.
    do 6 reject. cbv zeta. reject.
    assert (E : (0 <? len (host d)) && (512 <? len (host d)) = true).
    { apply andb_true_iff. split; apply Z.ltb_lt; lia. }
    rewrite E. eexists. reflexivity.
  - intros t d' H. unfold validateDysk, ret in H.
    do 6 reject_in H. cbv zeta in H. do 2 reject_in H. reject_in H.
    unfold bindM, call, lift in H.
    split.
    + match goal with
      | E : (0 <? len (host d)) && (512 <? len (host d)) = false |- _ =>
          apply andb_false_iff in E; destruct E as [E|E]; apply Z.ltb_ge in E; lia
      end.
    + destruct (LookupIP w _) as [addr|e]; [|discriminate H].
      destruct (index addr 0) as [a0|p]; [|discriminate H].
      destruct (validateLease ReadOnly w _) as [tl [e|p]]; [|discriminate H].
      injection H as _ <- _. reflexivity.
Qed.

(** A descriptor that fails a field check is rejected before validation
    issues any call. *)
Lemma validateDysk_field_error (d : Dysk) :
  supplied_fields_ok ReadOnly ReadWrite
    {| storageAccountName := AccountName d; storageAccountKey := AccountKey d |} d
  = false ->
  exists d' msg,
    In msg field_messages
    /\ validateDysk ReadOnly ReadWrite w d = ([], Ret (d', Some (Errorf msg))).
Proof.
  unfold supplied_fields_ok, validateDysk, ret.
  cbn [storageAccountName storageAccountKey]. intros Hbad.
  destruct ((len (Type_ d) =? 0) || _) eqn:E1; [known_message|].
  destruct ((len (Name d) =? 0) || _) eqn:E2; [known_message|].
  destruct (Contains (Name d) "/" || _ || _) eqn:E3; [known_message|].
  destruct (sectorCount d =? 0) eqn:E4; [known_message|].
  destruct ((len (AccountName d) =? 0) || _) eqn:E5; [known_message|].
  destruct ((len (AccountKey d) =? 0) || _) eqn:E6; [known_message|].
  cbv zeta.
  destruct ((len (Path d) =? 0) || _) eqn:E7; [known_message|].
  destruct ((0 <? len (host d)) && _) eqn:E8; [known_message|].
  cbn [LeaseId set_host].
  destruct ((len (LeaseId d) =? 0) || _) eqn:E9; [known_message|].
  discriminate Hbad.
Qed.

(** C3 (the code on the failing inputs): a descriptor whose fields pass
    every check and whose account key is not base64 is not rejected for its
    key; validation goes on and resolves the derived host. *)
Theorem validateDysk_ignores_base64 (d : Dysk) :
  supplied_fields_ok ReadOnly ReadWrite
    {| storageAccountName := AccountName d; storageAccountKey := AccountKey d |} d
  = true ->
  sectorCount d <> 0 ->
  Base64.DecodeString_ok (AccountKey d) = false ->
  exists t r,
    validateDysk ReadOnly ReadWrite w d
    = (EvLookupIP (AccountName d ++ ".blob.core.windows.net") :: t, r).
Proof.
  unfold supplied_fields_ok. cbn [storageAccountName storageAccountKey].
  intros Hok Hsc _.
  repeat rewrite andb_true_iff in Hok.
  destruct Hok as (((((((H1 & H2) & H3) & H4) & H5) & H6) & H7) & H8).
  apply negb_true_iff in H1, H2, H3, H4, H5, H6, H7, H8.
  apply Z.eqb_neq in Hsc.
  unfold validateDysk. rewrite H1, H2, H3, Hsc, H4, H5. cbv zeta.
  rewrite H6, H7. cbn [LeaseId set_host host AccountName]. rewrite H8.
  unfold bindM, call.
  match goal with
  | |- context [match ?x with pair _ _ => _ end] => destruct x as [t' r']
  end.
  exists t', r'. reflexivity.
Qed.

End Validation.

Section Mounting.

Variables ReadOnly ReadWrite : DyskType.
Variable VHD_HEADER_SIZE : Z.
Variable w : World.

(** C6 (as the code has it): when the device opens and the descriptor fails
    a field check on type, name, account name, account key length, path,
    host length or lease id, [Mount] returns the validation error without
    any ioctl, host lookup or lease check; by then it has opened the control
    channel and asked the object store for the blob's properties, and it
    closes the channel on the way out. *)
Theorem Mount_rejects_after_fetch (c : dyskclient) (d : Dysk) :
  os_Open w = None ->
  supplied_fields_ok ReadOnly ReadWrite c d = false ->
  exists d' msg,
    In msg field_messages
    /\ Mount ReadOnly ReadWrite VHD_HEADER_SIZE w c d
    = ([EvOpen;
        EvNewBasicClient (storageAccountName c) (storageAccountKey c);
        EvGetProperties (Path d) (LeaseId d);
        EvClose],
       Ret (d', Some (Errorf msg))).
Proof.
  intros Hopen Hbad.
  unfold Mount, openDeviceFile, defer, closeDeviceFile.
  unfold pre_mount, set_pageblob_size, ensureBlobService, bindM, call, ret.
  rewrite Hopen. cbn [Path LeaseId set_account].
  destruct (GetProperties w (Path d) (LeaseId d)) as [[contentLength page]|e].
  - match goal with
    | |- context [validateDysk _ _ _ ?d2] =>
        destruct (validateDysk_field_error ReadOnly ReadWrite w d2)
          as (d' & msg & Hin & Hv); [exact Hbad|]
    end.
    rewrite Hv. exists d', msg. split; [exact Hin|reflexivity].
  - match goal with
    | |- context [validateDysk _ _ _ ?d2] =>
        destruct (validateDysk_field_error ReadOnly ReadWrite w d2)
          as (d' & msg & Hin & Hv); [exact Hbad|]
    end.
    rewrite Hv. exists d', msg. split; [exact Hin|reflexivity].
Qed.

Lemma to_int64_small (z : Z) : - 2 ^ 63 <= z < 2 ^ 63 -> to_int64 z = z.
Proof.
  intros Hz. unfold to_int64.
  assert (H63 : 2 ^ 63 = 9223372036854775808) by reflexivity.
  assert (H64 : 2 ^ 64 = 18446744073709551616) by reflexivity.
  rewrite H63, H64 in *. rewrite Z.mod_small by lia. lia.
Qed.

Lemma to_uint64_small (z : Z) : 0 <= z < 2 ^ 64 -> to_uint64 z = z.
Proof. intros Hz. unfold to_uint64. now apply Z.mod_small. Qed.

(** Sector count of an image of [g] GiB, and back. *)
Lemma reconcile_arith (g : Z) :
  0 <= VHD_HEADER_SIZE ->
  VHD_HEADER_SIZE <= g * GiB < 2 ^ 63 ->
  (g * GiB - VHD_HEADER_SIZE) mod 512 = 0 ->
  to_int64
    (to_uint64
       (to_uint64
          (to_uint64
             (Z.quot (to_int64 (to_int64 (g * (1024 * 1024 * 1024))
                                - VHD_HEADER_SIZE)) 512) * 512)
        + VHD_HEADER_SIZE) / (1024 * 1024 * 1024))
  = g.
Proof.
  intros Hh Hg Hm.
  change (1024 * 1024 * 1024) with GiB.
  assert (HG : GiB = 1073741824) by reflexivity.
  assert (H63 : 2 ^ 63 = 9223372036854775808) by reflexivity.
  assert (H64 : 2 ^ 64 = 18446744073709551616) by reflexivity.
  set (X := g * GiB) in *.
  rewrite (to_int64_small X) by lia.
  rewrite (to_int64_small (X - VHD_HEADER_SIZE)) by lia.
  rewrite Z.quot_div_nonneg by lia.
  assert (Hq : X - VHD_HEADER_SIZE = 512 * ((X - VHD_HEADER_SIZE) / 512)).
  { apply Z.div_exact; [lia|exact Hm]. }
  set (q := (X - VHD_HEADER_SIZE) / 512) in *.
  rewrite (to_uint64_small q) by lia.
  replace (q * 512) with (X - VHD_HEADER_SIZE) by lia.
  rewrite (to_uint64_small (X - VHD_HEADER_SIZE)) by lia.
  replace (X - VHD_HEADER_SIZE + VHD_HEADER_SIZE) with X by lia.
  rewrite (to_uint64_small X) by lia.
  unfold X. rewrite Z.div_mul by (rewrite HG; lia).
  apply to_int64_small. subst X. lia.
Qed.

(** C7 (as the code has it): for an image-format descriptor, [post_get]
    after [pre_mount] returns the size [pre_mount] left in the descriptor,
    provided that size in bytes fits Go's [int], is at least the header and,
    less the header, is a whole number of 512-byte sectors.  That size is the
    object's size in whole GiB when the store answers the property fetch,
    and the caller's [SizeGB] only when the fetch fails. *)
Theorem size_reconciliation (c : dyskclient) (d d' : Dysk) (t : list event)
    (err : option error) :
  0 <= VHD_HEADER_SIZE ->
  Vhd d = true ->
  pre_mount ReadOnly ReadWrite VHD_HEADER_SIZE w c d = (t, Ret (d', err)) ->
  VHD_HEADER_SIZE <= SizeGB d' * GiB < 2 ^ 63 ->
  (SizeGB d' * GiB - VHD_HEADER_SIZE) mod 512 = 0 ->
  SizeGB (post_get VHD_HEADER_SIZE d') = SizeGB d'
  /\ SizeGB d' = match GetProperties w (Path d) (LeaseId d) with
                 | inl (contentLength, _) => to_int64 (Z.quot contentLength GiB)
                 | inr _ => SizeGB d
                 end.
Proof.
  intros Hh Hvhd Hpre Hg Hm.
  unfold pre_mount, set_pageblob_size, ensureBlobService, bindM, call, ret in Hpre.
  cbn [Path LeaseId set_account] in Hpre.
  destruct (GetProperties w (Path d) (LeaseId d)) as [[contentLength page]|e];
    cbn [Vhd SizeGB set_SizeGB set_account] in Hpre; rewrite Hvhd in Hpre;
    match type of Hpre with
    | context [validateDysk _ _ _ ?d2] =>
        destruct (validateDysk ReadOnly ReadWrite w d2) as [t2 r2] eqn:Hv
    end;
    injection Hpre as _ ->;
    apply validateDysk_keeps_size in Hv;
    cbn [Vhd SizeGB sectorCount set_sectorCount set_SizeGB set_account] in Hv;
    destruct Hv as (Hs & Hv' & Hsc);
    (split; [|exact Hs]);
    unfold post_get; cbn [SizeGB set_SizeGB]; rewrite Hv', Hsc, Hvhd;
    rewrite <- Hs; apply reconcile_arith; assumption.
Qed.

End Mounting.

(** *** Listing *)
Section Listing.

Variable VHD_HEADER_SIZE : Z.
Variable w : World.

Lemma bufferize_dash : bufferize "-" = Ret list_request.
Proof. vm_compute. reflexivity. Qed.

Lemma List_loop_cons (name : string) (rest : list string) (idx last : Z)
    (dysks : list Dysk) :
  List_loop VHD_HEADER_SIZE w (name :: rest) idx last dysks
  = if idx =? last then ret (inl dysks)
    else r <~ get w name ;;
         match r with
         | inr e => ret (inr e)
         | inl d => List_loop VHD_HEADER_SIZE w rest (idx + 1) last
                      (dysks ++ [post_get VHD_HEADER_SIZE d])
         end.
Proof. reflexivity. Qed.

Lemma get_each_cons (name : string) (rest : list string) (dysks : list Dysk) :
  get_each VHD_HEADER_SIZE w (name :: rest) dysks
  = r <~ get w name ;;
    match r with
    | inr e => ret (inr e)
    | inl d => get_each VHD_HEADER_SIZE w rest (dysks ++ [post_get VHD_HEADER_SIZE d])
    end.
Proof. reflexivity. Qed.

(** The loop of [List] visits every segment but the last. *)
Lemma List_loop_get_each (names : list string) (idx : Z) (dysks : list Dysk) :
  names <> [] ->
  List_loop VHD_HEADER_SIZE w names idx (idx + Z.of_nat (List.length names) - 1) dysks
  = get_each VHD_HEADER_SIZE w (removelast names) dysks.
Proof.
  revert idx dysks. induction names as [|a names IH]; intros idx dysks Hne;
    [congruence|].
  destruct names as [|b names].
  - rewrite List_loop_cons. cbn [List.length removelast get_each].
    replace (idx + Z.of_nat 1 - 1) with idx by lia.
    now rewrite Z.eqb_refl.
  - rewrite List_loop_cons.
    change (removelast (a :: b :: names)) with (a :: removelast (b :: names)).
    rewrite get_each_cons.
    destruct (Z.eqb_spec idx (idx + Z.of_nat (List.length (a :: b :: names)) - 1))
      as [E|E].
    { cbn [List.length] in E. lia. }
    unfold bindM. destruct (get w a) as [t [[d|e]|p]]; try reflexivity.
    replace (idx + Z.of_nat (List.length (a :: b :: names)) - 1)
      with (idx + 1 + Z.of_nat (List.length (b :: names)) - 1)
      by (cbn [List.length]; lia).
    rewrite IH by discriminate. reflexivity.
Qed.

(** The first failing get ends [get_each] with that error, and no later
    name is asked. *)
Lemma get_each_abort (pre post : list string) (name : string) (e : error)
    (dysks : list Dysk) :
  (forall n, In n pre -> exists d, snd (get w n) = Ret (inl d)) ->
  snd (get w name) = Ret (inr e) ->
  get_each VHD_HEADER_SIZE w (pre ++ name :: post) dysks
  = (flat_map (fun n => fst (get w n)) (pre ++ [name]), Ret (inr e)).
Proof.
  revert dysks. induction pre as [|a pre IH]; intros dysks Hpre Hname.
  - cbn [app get_each flat_map]. unfold bindM, ret.
    destruct (get w name) as [t r]. cbn [snd fst] in *. subst r.
    now rewrite !app_nil_r.
  - cbn [app get_each flat_map]. unfold bindM.
    destruct (Hpre a (or_introl eq_refl)) as (d & Hd).
    destruct (get w a) as [t r]. cbn [snd fst] in *. subst r.
    rewrite IH; [reflexivity| |exact Hname].
    intros n Hn. apply Hpre. now right.
Qed.

(** C5 (as the code has it): after a successful list exchange [List] asks
    the driver, in order, for every segment of the payload split on line
    feed except the last one, so a payload with two trailing empty segments
    has the empty name asked as well; the first failing get ends the whole
    [List] with that error and without descriptors. *)
Theorem List_visits (written : list byte) (payload : string) :
  os_Open w = None ->
  ioctl w IOCTLISTDYYSKS list_request = (0, written) ->
  parseResponse (overwrite list_request written)
  = Ret {| is_error := false; response := payload |} ->
  let names := removelast (Split payload LF) in
  List VHD_HEADER_SIZE w
  = (let '(t, r) := get_each VHD_HEADER_SIZE w names [] in
     ([EvOpen; EvIoctl IOCTLISTDYYSKS list_request] ++ t ++ [EvClose], r))
  /\ forall pre name post e,
       names = pre ++ name :: post ->
       (forall n, In n pre -> exists d, snd (get w n) = Ret (inl d)) ->
       snd (get w name) = Ret (inr e) ->
       List VHD_HEADER_SIZE w
       = ([EvOpen; EvIoctl IOCTLISTDYYSKS list_request]
          ++ flat_map (fun n => fst (get w n)) (pre ++ [name]) ++ [EvClose],
          Ret (inr e)).
Proof.
  intros Hopen Hioctl Hparse names.
  assert (HL : List VHD_HEADER_SIZE w
               = (let '(t, r) := get_each VHD_HEADER_SIZE w names [] in
                  ([EvOpen; EvIoctl IOCTLISTDYYSKS list_request] ++ t ++ [EvClose], r))).
  { unfold List, openDeviceFile, defer, closeDeviceFile, Syscall_IOCTL.
    unfold bindM at 1. unfold call at 1. rewrite Hopen.
    rewrite bufferize_dash. unfold lift at 1. unfold bindM at 1.
    rewrite Hioctl. unfold call at 1. unfold bindM at 1.
    change (negb (0 =? 0)) with false. cbv iota.
    rewrite Hparse. unfold lift at 1. unfold bindM at 1. cbn [is_error response].
    replace (Z.of_nat (List.length (Split payload LF)) - 1)
      with (0 + Z.of_nat (List.length (Split payload LF)) - 1) by lia.
    rewrite List_loop_get_each by apply Split_nonempty.
    fold names. destruct (get_each VHD_HEADER_SIZE w names []) as [t r].
    cbn [app]. reflexivity. }
  split; [exact HL|].
  intros pre name post e Hnames Hpre Hname.
  rewrite HL, Hnames, (get_each_abort pre post name e [] Hpre Hname).
  reflexivity.
Qed.

End Listing.

(** *** Provisioning *)
Section Provisioning.

Variable VHD_HEADER_SIZE : Z.
Variable w : World.

(** C2 (the code at the failing input): whenever the steps before it
    succeed, [CreatePageBlob] writes the header over the last bytes of the
    blob, whatever [is_vhd] is, hence also when it is false. *)
Theorem CreatePageBlob_writes_header (c : dyskclient) (sizeGB : Z)
    (container pageBlobName : string) (is_vhd : bool) (headerBytes : list byte) :
  let sizeBytes := to_uint64 (sizeGB * 1024 * 1024 * 1024) in
  NewBasicClient w (storageAccountName c) (storageAccountKey c) = None ->
  CreateIfNotExists w container = None ->
  PutPageBlob w container pageBlobName (to_int64 sizeBytes) = None ->
  FixedHeaderBytes w sizeBytes = inl headerBytes ->
  VHD_HEADER_SIZE <= len_bytes headerBytes ->
  In (EvWriteRange container pageBlobName
        (to_uint64 (sizeBytes - len_bytes headerBytes)) (to_uint64 (sizeBytes - 1))
        (firstn (Z.to_nat VHD_HEADER_SIZE) headerBytes))
     (fst (CreatePageBlob VHD_HEADER_SIZE w c sizeGB container pageBlobName is_vhd)).
Proof.
  intros sizeBytes Hnew Hcont Hput Hhdr Hlen.
  unfold CreatePageBlob, ensureBlobService, bindM, call, lift, ret.
  rewrite Hnew, Hcont. fold sizeBytes. rewrite Hput, Hhdr.
  destruct (Z.ltb_spec (len_bytes headerBytes) VHD_HEADER_SIZE) as [L|L]; [lia|].
  destruct (WriteRange w _ _ _ _ _) as [e|].
  - cbn [fst app]. right. right. right. left. reflexivity.
  - destruct (AcquireLease w _ _) as [l|e];
      cbn [fst app]; right; right; right; left; reflexivity.
Qed.

End Provisioning.

Lemma CreatePageBlob_writes_header_witness :
  In (EvWriteRange "dysks" "disk1"
        (to_uint64 (to_uint64 (1 * 1024 * 1024 * 1024) - len_bytes (repeat x00 512)))
        (to_uint64 (to_uint64 (1 * 1024 * 1024 * 1024) - 1))
        (firstn (Z.to_nat 512) (repeat x00 512)))
     (fst (CreatePageBlob 512 (cloud driver (inl (GiB, true))) acct 1
             "dysks" "disk1" false)).
Proof.
  apply (CreatePageBlob_writes_header 512 (cloud driver (inl (GiB, true))) acct 1
           "dysks" "disk1" false (repeat x00 512));
    reflexivity.
Defined.

Lemma validateDysk_ignores_base64_witness :
  exists t r,
    validateDysk "R" "RW" (cloud driver (inl (GiB, true)))
                 (set_account disk1 "acct" "not-base64!!")
    = (EvLookupIP "acct.blob.core.windows.net" :: t, r).
Proof.
  apply (validateDysk_ignores_base64 "R" "RW" (cloud driver (inl (GiB, true)))
           (set_account disk1 "acct" "not-base64!!"));
    [reflexivity|discriminate|reflexivity].
Defined.

(** With the key "not-base64!!", a host that resolves and a lease that
    holds, validation returns no error at all. *)
Lemma validateDysk_accepts_bad_key :
  let d := set_account disk1 "acct" "not-base64!!" in
  Base64.DecodeString_ok (AccountKey d) = false
  /\ validateDysk "R" "RW" (cloud driver (inl (GiB, true))) d
     = ([EvLookupIP "acct.blob.core.windows.net";
         EvContainerExists "/dysks/disk1"; EvBlobExists "/dysks/disk1";
         EvGetProperties "/dysks/disk1" "lease-1";
         EvSetMetadata "/dysks/disk1" "lease-1"],
        Ret (d, None)).
Proof. split; vm_compute; reflexivity. Qed.

Lemma List_visits_witness :
  let w := cloud strict_driver (inl (GiB, true)) in
  let names := removelast (Split list_payload LF) in
  List 512 w
  = (let '(t, r) := get_each 512 w names [] in
     ([EvOpen; EvIoctl IOCTLISTDYYSKS list_request] ++ t ++ [EvClose], r))
  /\ forall pre name post e,
       names = pre ++ name :: post ->
       (forall n, In n pre -> exists d, snd (get w n) = Ret (inl d)) ->
       snd (get w name) = Ret (inr e) ->
       List 512 w
       = ([EvOpen; EvIoctl IOCTLISTDYYSKS list_request]
          ++ flat_map (fun n => fst (get w n)) (pre ++ [name]) ++ [EvClose],
          Ret (inr e)).
Proof.
  apply (List_visits 512 (cloud strict_driver (inl (GiB, true)))
           (bytes ("OK" ++ newline ++ "diskA" ++ newline ++ "diskB"
                   ++ newline ++ newline))
           list_payload);
    vm_compute; reflexivity.
Defined.

(** With the payload of two names and an empty line, three names are asked,
    the third of them empty. *)
Lemma List_asks_empty_name :
  let w := cloud driver (inl (GiB, true)) in
  removelast (Split ("diskA" ++ newline ++ "diskB" ++ newline ++ newline) LF)
  = ["diskA"; "diskB"; ""]
  /\ parseResponse (overwrite list_request (snd (ioctl w IOCTLISTDYYSKS list_request)))
     = Ret {| is_error := false; response := list_payload |}
  /\ queried_names (fst (List 512 w)) = ["diskA"; "diskB"; ""]
  /\ queried_names (fst (List 512 w)) <> ["diskA"; "diskB"].
Proof.
  repeat split; try (vm_compute; reflexivity).
  vm_compute. discriminate.
Qed.

(** When the driver refuses the empty name, the list of two names and an
    empty line ends in that refusal, after three gets. *)
Lemma List_aborts_on_empty_name :
  let w := cloud strict_driver (inl (GiB, true)) in
  queried_names (fst (List 512 w)) = ["diskA"; "diskB"; ""]
  /\ exists msg, snd (List 512 w) = Ret (inr (Errorf msg)).
Proof.
  split; [vm_compute; reflexivity|].
  eexists. vm_compute. reflexivity.
Qed.

Lemma Mount_rejects_after_fetch_witness :
  exists d' msg,
    In msg field_messages
    /\ Mount "R" "RW" 512 (cloud driver (inl (GiB, true))) acct (with_name disk1 "a/b")
    = ([EvOpen; EvNewBasicClient "acct" "a2V5";
        EvGetProperties "/dysks/disk1" "lease-1"; EvClose],
       Ret (d', Some (Errorf msg))).
Proof.
  apply (Mount_rejects_after_fetch "R" "RW" 512 (cloud driver (inl (GiB, true)))
           acct (with_name disk1 "a/b")); reflexivity.
Defined.

(** A name with a path separator: the error comes back after the device
    was opened and the store was asked for the blob's properties. *)
Lemma Mount_opens_and_fetches_first :
  exists t d',
    Mount "R" "RW" 512 (cloud driver (inl (GiB, true))) acct (with_name disk1 "a/b")
    = (t, Ret (d', Some (Errorf "Invalid name. Must not contain \ / .")))
    /\ existsb is_channel_call t = true
    /\ existsb is_network_call t = true.
Proof.
  eexists. eexists. split; [vm_compute; reflexivity|].
  split; reflexivity.
Qed.

Lemma size_reconciliation_witness :
  let w := cloud driver (inl (2 * GiB, true)) in
  let d := with_vhd disk1 true 1 in
  exists t d' err,
    pre_mount "R" "RW" 512 w acct d = (t, Ret (d', err))
    /\ SizeGB (post_get 512 d') = SizeGB d'
    /\ SizeGB d' = match GetProperties w (Path d) (LeaseId d) with
                   | inl (contentLength, _) => to_int64 (Z.quot contentLength GiB)
                   | inr _ => SizeGB d
                   end.
Proof.
  intros w d.
  destruct (pre_mount "R" "RW" 512 w acct d) as [t [[d' err]|p]] eqn:E;
    [|vm_compute in E; discriminate E].
  exists t, d', err. split; [reflexivity|].
  assert (Hd : SizeGB d' = 2) by (vm_compute in E; now injection E as _ <- _).
  apply (size_reconciliation "R" "RW" 512 w acct d d' t err);
    [lia|reflexivity|exact E| |]; rewrite Hd; vm_compute; [split; congruence|reflexivity].
Defined.

(** The caller says 1 GiB, the store holds 2 GiB: the size that comes back
    is the store's. *)
Lemma size_from_store :
  let w := cloud driver (inl (2 * GiB, true)) in
  let d := with_vhd disk1 true 1 in
  Vhd d = true
  /\ 0 <= SizeGB d * GiB - 512
  /\ (SizeGB d * GiB - 512) mod 512 = 0
  /\ exists t d' err,
       pre_mount "R" "RW" 512 w acct d = (t, Ret (d', err))
       /\ SizeGB (post_get 512 d') = 2
       /\ SizeGB (post_get 512 d') <> SizeGB d.
Proof.
  split; [reflexivity|]. split; [vm_compute; discriminate|]. split; [reflexivity|].
  eexists. eexists. eexists. split; [vm_compute; reflexivity|].
  split; [reflexivity|discriminate].
Qed.

(** Beyond Go's [int] the byte size wraps: 2^34 + 1 GiB comes back as 1. *)
Lemma size_wraps :
  let w := cloud driver no_props in
  let d := with_vhd disk1 true (2 ^ 34 + 1) in
  exists t d' err,
    pre_mount "R" "RW" 512 w acct d = (t, Ret (d', err))
    /\ SizeGB d' = 2 ^ 34 + 1
    /\ SizeGB (post_get 512 d') = 1.
Proof.
  eexists. eexists. eexists. split; [vm_compute; reflexivity|].
  split; reflexivity.
Qed.

(** A supplied host of 11 bytes does not survive validation. *)
Lemma validateDysk_host_replaced :
  len (host (set_host disk1 "example.com")) <= 512
  /\ exists t d',
       validateDysk "R" "RW" (cloud driver (inl (GiB, true)))
                    (set_host disk1 "example.com")
       = (t, Ret (d', None))
       /\ host d' = "acct.blob.core.windows.net"
       /\ host d' <> "example.com".
Proof.
  split; [vm_compute; discriminate|].
  eexists. eexists. split; [vm_compute; reflexivity|].
  split; [reflexivity|discriminate].
Qed.

End OperationFacts.

(** * Further properties of the client *)

(** ** Buffers and replies *)
Module BufferFacts.

Import Go Strings Strconv Client Vocabulary StringsFacts StrconvFacts.

Lemma len_bytes_bos (s : string) : len_bytes (list_byte_of_string s) = len s.
Proof. unfold len_bytes, len. now rewrite bos_length. Qed.

(** What [bufferize] returns on an input that fits. *)
Lemma bufferize_fits (s : string) :
  len s <= 2048 ->
  bufferize s
  = Ret (list_byte_of_string s ++ repeat x00 (2048 - String.length s)).
Proof.
  intros Hlen. unfold bufferize, make_bytes, IOCTL_IN_OUT_MAX.
  rewrite len_bytes_bos. unfold len in *.
  destruct (Z.ltb_spec (2048 - Z.of_nat (String.length s)) 0) as [E|E]; [lia|].
  unfold bind. do 3 f_equal. lia.
Qed.

Lemma bufferize_long (s : string) :
  2048 < len s ->
  bufferize s = Panic (MakeSliceLenOutOfRange (2048 - len s)).
Proof.
  intros Hlen. unfold bufferize, make_bytes, IOCTL_IN_OUT_MAX.
  rewrite len_bytes_bos.
  destruct (Z.ltb_spec (2048 - len s) 0) as [E|E]; [reflexivity|lia].
Qed.

Lemma bufferize_returns (s : string) (b : list byte) :
  bufferize s = Ret b -> len s <= 2048 /\ List.length b = 2048%nat.
Proof.
  intros H. destruct (Z.leb_spec (len s) 2048) as [L|L].
  - rewrite (bufferize_fits s L) in H.
    assert (Hb : b = list_byte_of_string s ++ repeat x00 (2048 - String.length s))
      by congruence.
    split; [exact L|]. rewrite Hb, length_app, repeat_length, bos_length.
    unfold len in L. lia.
  - rewrite (bufferize_long s L) in H. discriminate H.
Qed.

(** X1: [bufferize] returns exactly when its input has at most 2048 bytes,
    and then the buffer has exactly 2048 bytes, the input first and zeros
    after it (none when the input has 2048 bytes); on a longer input it
    panics while making the padding. *)
Theorem bufferize_total_on_fitting (s : string) :
  match bufferize s with
  | Ret b =>
      len s <= 2048 /\ len_bytes b = 2048
      /\ b = list_byte_of_string s ++ repeat x00 (2048 - String.length s)
  | Panic p => 2048 < len s /\ p = MakeSliceLenOutOfRange (2048 - len s)
  end.
Proof.
  destruct (Z.leb_spec (len s) 2048) as [L|L].
  - rewrite (bufferize_fits s L). split; [exact L|]. split; [|reflexivity].
    unfold len_bytes. rewrite length_app, repeat_length, bos_length.
    unfold len in L. lia.
  - rewrite (bufferize_long s L). now split.
Qed.

(** The driver's bytes, when they fit, are followed by what was in the
    buffer behind them. *)
Lemma overwrite_fits (buffer written : list byte) :
  (List.length written <= List.length buffer)%nat ->
  overwrite buffer written = written ++ skipn (List.length written) buffer.
Proof.
  intros H. unfold overwrite. now rewrite firstn_all2 by exact H.
Qed.

Lemma overwrite_length (buffer written : list byte) :
  List.length (overwrite buffer written) = List.length buffer.
Proof.
  unfold overwrite. rewrite length_app, length_firstn, length_skipn. lia.
Qed.

(** [Index] on a text whose first line is known. *)
Lemma index_from_line (line rest : string) (i : Z) :
  Contains line LF = false ->
  index_from i (line ++ String LF rest) LF = i + len line.
Proof.
  revert i. induction line as [|c line IH]; intros i H.
  - cbn [append index_from]. rewrite Ascii.eqb_refl. unfold len.
    cbn [String.length]. lia.
  - apply Contains_cons in H. destruct H as [Hc Hl].
    cbn [append index_from]. rewrite Hc, IH by exact Hl. unfold len.
    cbn [String.length]. lia.
Qed.

(** [parseResponse] on a buffer whose text starts with a status line. *)
Lemma parseResponse_text (b : list byte) (status rest : string) :
  string_of_list_byte b = (status ++ String LF rest)%string ->
  Contains status LF = false ->
  parseResponse b
  = Ret {| is_error := String.eqb status "ERR"; response := rest |}.
Proof.
  intros Htext Hst. unfold parseResponse, Index. rewrite Htext.
  rewrite index_from_line by exact Hst.
  replace (0 + len status) with (len status) by lia.
  rewrite slice_to_head, slice_from_tail. reflexivity.
Qed.

Lemma zeros_text_newline_free (n : nat) :
  Contains (string_of_list_byte (repeat x00 n)) LF = false.
Proof.
  induction n as [|n IH]; [reflexivity|].
  simpl repeat. rewrite sob_cons. apply Contains_cons. split; [reflexivity|exact IH].
Qed.

(** X2: a status line and a payload that fit the buffer come back from
    [parseResponse] as they were put in by [bufferize], the status compared
    with "ERR" and the payload followed by the buffer's zero padding. *)
Theorem parseResponse_bufferize (status payload : string) :
  Contains status LF = false ->
  len (status ++ String LF payload) <= 2048 ->
  exists b,
    bufferize (status ++ String LF payload) = Ret b
    /\ parseResponse b
       = Ret {| is_error := String.eqb status "ERR";
                response :=
                  (payload
                   ++ string_of_list_byte
                        (repeat x00 (2048 - String.length (status ++ String LF payload))))%string |}.
Proof.
  intros Hst Hlen. eexists. split; [apply bufferize_fits; exact Hlen|].
  apply parseResponse_text; [|exact Hst].
  rewrite sob_app, string_of_list_byte_of_string, append_assoc. reflexivity.
Qed.

Lemma parseResponse_bufferize_witness :
  exists b,
    bufferize ("ERR" ++ String LF ("bad lease" ++ newline)) = Ret b
    /\ parseResponse b
       = Ret {| is_error := String.eqb "ERR" "ERR";
                response :=
                  (("bad lease" ++ newline)
                   ++ string_of_list_byte
                        (repeat x00 (2048 - String.length
                                              ("ERR" ++ String LF ("bad lease" ++ newline)))))%string |}.
Proof.
  apply (parseResponse_bufferize "ERR" ("bad lease" ++ newline));
    [reflexivity|vm_compute; discriminate].
Defined.

End BufferFacts.

(** ** The codec, further *)
Module LayoutFacts.

Import Go Strings Strconv Client Vocabulary StringsFacts StrconvFacts.

Lemma newline_cons (s : string) : (newline ++ s)%string = String LF s.
Proof. reflexivity. Qed.

Ltac pieces :=
  rewrite ?newline_cons; unfold newline;
  repeat (rewrite Split_piece
            by first [ assumption
                     | apply FormatUint_newline_free; assumption
                     | apply FormatInt_newline_free; assumption
                     | apply FormatInt_newline_free; lia ]).

Lemma vhd_flag_range (b : bool) : - 2 ^ 63 <= (if b then 1 else 0) < 2 ^ 63.
Proof. destruct b; split; reflexivity || discriminate. Qed.

(** The segments of an encoded descriptor. *)
Lemma Split_dysk2string (d : Dysk) :
  newline_free d ->
  0 <= sectorCount d < 2 ^ 64 ->
  Split (dysk2string d) LF
  = [Type_ d; Name d; FormatUint (sectorCount d); AccountName d; AccountKey d;
     Path d; host d; ip d; LeaseId d; FormatInt (if Vhd d then 1 else 0);
     EmptyString].
Proof.
  intros (H0 & H1 & H3 & H4 & H5 & H6 & H7 & H8) Hsc.
  assert (Hflag := vhd_flag_range (Vhd d)).
  unfold dysk2string. cbv zeta. pieces. reflexivity.
Qed.

(** X3: the encoding determines every field it carries: two descriptors
    without line feed in their fields that encode to the same text agree on
    type, name, sector count, account name and key, path, host, ip, lease id
    and the vhd flag. *)
Theorem dysk2string_injective (d1 d2 : Dysk) :
  newline_free d1 -> newline_free d2 ->
  0 <= sectorCount d1 < 2 ^ 64 -> 0 <= sectorCount d2 < 2 ^ 64 ->
  dysk2string d1 = dysk2string d2 ->
  Type_ d1 = Type_ d2 /\ Name d1 = Name d2 /\ sectorCount d1 = sectorCount d2
  /\ AccountName d1 = AccountName d2 /\ AccountKey d1 = AccountKey d2
  /\ Path d1 = Path d2 /\ host d1 = host d2 /\ ip d1 = ip d2
  /\ LeaseId d1 = LeaseId d2 /\ Vhd d1 = Vhd d2.
Proof.
  intros Hn1 Hn2 Hs1 Hs2 Heq.
  apply (f_equal (fun s => Split s LF)) in Heq.
  rewrite (Split_dysk2string d1 Hn1 Hs1), (Split_dysk2string d2 Hn2 Hs2) in Heq.
  injection Heq as Ht Hn Hsc Han Hak Hp Hh Hi Hl Hv.
  apply (f_equal ParseUint) in Hsc.
  rewrite !ParseUint_FormatUint in Hsc by assumption.
  repeat split; try assumption.
  - congruence.
  - destruct (Vhd d1), (Vhd d2); try reflexivity; discriminate Hv.
Qed.

Lemma dysk2string_injective_witness :
  Type_ disk1 = Type_ (set_devnums disk1 252 0)
  /\ Name disk1 = Name (set_devnums disk1 252 0)
  /\ sectorCount disk1 = sectorCount (set_devnums disk1 252 0)
  /\ AccountName disk1 = AccountName (set_devnums disk1 252 0)
  /\ AccountKey disk1 = AccountKey (set_devnums disk1 252 0)
  /\ Path disk1 = Path (set_devnums disk1 252 0)
  /\ host disk1 = host (set_devnums disk1 252 0)
  /\ ip disk1 = ip (set_devnums disk1 252 0)
  /\ LeaseId disk1 = LeaseId (set_devnums disk1 252 0)
  /\ Vhd disk1 = Vhd (set_devnums disk1 252 0).
Proof.
  apply (dysk2string_injective disk1 (set_devnums disk1 252 0)).
  - repeat split; reflexivity.
  - repeat split; reflexivity.
  - simpl. lia.
  - simpl. lia.
  - reflexivity.
Defined.

(** X4: on a text of at least twelve segments [string2dysk] does not panic.
    It returns a descriptor exactly when the tenth and eleventh segments
    parse as integers, and the parse error of the first of them that does
    not; a sector count or vhd flag that does not parse is tolerated.  The
    descriptor carries the segments in their positions, and zero as size. *)
Theorem string2dysk_twelve (s : string) :
  let split := Split s LF in
  let seg := fun i => nth i split EmptyString in
  (12 <= List.length split)%nat ->
  string2dysk s
  = match ParseInt (seg 9%nat), ParseInt (seg 10%nat) with
    | (_, Some e), _ => Ret (inr (NumError "ParseInt" (seg 9%nat) e))
    | (_, None), (_, Some e) => Ret (inr (NumError "ParseInt" (seg 10%nat) e))
    | (major, None), (minor, None) =>
        Ret (inl {| Type_ := seg 0%nat; Name := seg 1%nat;
                    sectorCount := fst (ParseUint (seg 2%nat));
                    AccountName := seg 3%nat; AccountKey := seg 4%nat;
                    Path := seg 5%nat; host := seg 6%nat; ip := seg 7%nat;
                    LeaseId := seg 8%nat; Major := major; Minor := minor;
                    Vhd := (1 =? fst (ParseInt (seg 11%nat))); SizeGB := 0 |})
    end.
Proof.
  unfold string2dysk. cbv zeta.
  destruct (Split s LF)
    as [|a0 [|a1 [|a2 [|a3 [|a4 [|a5 [|a6 [|a7 [|a8 [|a9 [|a10 [|a11 rest]]]]]]]]]]]];
    cbn [List.length]; intros Hlen; try lia.
  cbn [index nth_error bind nth].
  destruct (ParseUint a2) as [sc e2].
  destruct (ParseInt a9) as [mj [e|]]; [reflexivity|].
  destruct (ParseInt a10) as [mn [e|]]; [reflexivity|].
  cbn [bind]. destruct (ParseInt a11) as [v e11]. reflexivity.
Qed.

Lemma string2dysk_twelve_witness :
  let split := Split (twelve_lines disk1 252 0) LF in
  let seg := fun i => nth i split EmptyString in
  string2dysk (twelve_lines disk1 252 0)
  = match ParseInt (seg 9%nat), ParseInt (seg 10%nat) with
    | (_, Some e), _ => Ret (inr (NumError "ParseInt" (seg 9%nat) e))
    | (_, None), (_, Some e) => Ret (inr (NumError "ParseInt" (seg 10%nat) e))
    | (major, None), (minor, None) =>
        Ret (inl {| Type_ := seg 0%nat; Name := seg 1%nat;
                    sectorCount := fst (ParseUint (seg 2%nat));
                    AccountName := seg 3%nat; AccountKey := seg 4%nat;
                    Path := seg 5%nat; host := seg 6%nat; ip := seg 7%nat;
                    LeaseId := seg 8%nat; Major := major; Minor := minor;
                    Vhd := (1 =? fst (ParseInt (seg 11%nat))); SizeGB := 0 |})
    end.
Proof. apply (string2dysk_twelve (twelve_lines disk1 252 0)). vm_compute. lia. Defined.

(** A reply in the twelve-line layout decodes whatever follows it in the
    buffer. *)
Lemma string2dysk_reply (d : Dysk) (major minor : Z) (tail : string) :
  newline_free d ->
  0 <= sectorCount d < 2 ^ 64 ->
  - 2 ^ 63 <= major < 2 ^ 63 ->
  - 2 ^ 63 <= minor < 2 ^ 63 ->
  string2dysk (twelve_lines d major minor ++ tail)
  = Ret (inl (set_devnums (set_SizeGB d 0) major minor)).
Proof.
  intros (H0 & H1 & H3 & H4 & H5 & H6 & H7 & H8) Hsc Hmaj Hmin.
  assert (Hflag := vhd_flag_range (Vhd d)).
  unfold string2dysk, twelve_lines. cbv zeta.
  rewrite !append_assoc. pieces.
  cbn [index nth_error bind].
  rewrite ParseUint_FormatUint by exact Hsc.
  rewrite !ParseInt_FormatInt by assumption.
  destruct d as [t n sc an ak p h i l mj mn v sz]. cbn.
  destruct v; reflexivity.
Qed.

End LayoutFacts.

(** ** Traces of the operations *)
Module TraceFacts.

Import Go Strings Strconv Client Vocabulary StringsFacts StrconvFacts.

Lemma bindM_fst {A B : Type} (m : M A) (k : A -> M B) :
  fst (bindM m k)
  = fst m ++ match snd m with Ret a => fst (k a) | Panic _ => [] end.
Proof.
  destruct m as [t [a|p]]; cbn [bindM fst snd].
  - destruct (k a) as [t' r]. reflexivity.
  - now rewrite app_nil_r.
Qed.

Lemma defer_fst {A : Type} (deferred : list event) (body : M A) :
  fst (defer deferred body) = fst body ++ deferred.
Proof. destruct body as [t r]. reflexivity. Qed.

Lemma defer_snd {A : Type} (deferred : list event) (body : M A) :
  snd (defer deferred body) = snd body.
Proof. destruct body as [t r]. reflexivity. Qed.

Lemma bind_lift_ret {A B : Type} (a : A) (k : A -> M B) :
  bindM (lift (Ret a)) k = k a.
Proof. unfold bindM, lift. destruct (k a) as [t r]. reflexivity. Qed.

Lemma bind_ret {A B : Type} (a : A) (k : A -> M B) : bindM (ret a) k = k a.
Proof. unfold bindM, ret. destruct (k a) as [t r]. reflexivity. Qed.

Lemma bind_call {A B : Type} (e : event) (x : A) (k : A -> M B) :
  bindM (call e x) k = (e :: fst (k x), snd (k x)).
Proof. unfold bindM, call. destruct (k x) as [t r]. reflexivity. Qed.

Lemma bind_pair_ret {A B : Type} (t : list event) (a : A) (k : A -> M B) :
  bindM (t, Ret a) k = (t ++ fst (k a), snd (k a)).
Proof. unfold bindM. destruct (k a) as [t' r]. reflexivity. Qed.

Lemma Syscall_IOCTL_eq (w : World) (code e : Z) (buffer written : list byte) :
  ioctl w code buffer = (e, written) ->
  Syscall_IOCTL w code buffer
  = call (EvIoctl code buffer) (e, overwrite buffer written).
Proof. intros H. unfold Syscall_IOCTL. now rewrite H. Qed.

Section Quiet.

Variable p : event -> bool.

Lemma quiet_ret {A : Type} (a : A) : quiet p (ret a).
Proof. constructor. Qed.

Lemma quiet_lift {A : Type} (o : outcome A) : quiet p (lift o).
Proof. constructor. Qed.

Lemma quiet_call {A : Type} (e : event) (answer : A) :
  p e = false -> quiet p (call e answer).
Proof. intros H. constructor; [exact H|constructor]. Qed.

Lemma quiet_bind {A B : Type} (m : M A) (k : A -> M B) :
  quiet p m -> (forall a, quiet p (k a)) -> quiet p (bindM m k).
Proof.
  unfold quiet. intros Hm Hk. rewrite bindM_fst. apply Forall_app. split; [exact Hm|].
  destruct (snd m) as [a|q]; [apply Hk|constructor].
Qed.

End Quiet.

Ltac quiet_step :=
  match goal with
  | |- quiet _ (bindM _ _) => apply quiet_bind; [|intros]
  | |- quiet _ (ret _) => apply quiet_ret
  | |- quiet _ (lift _) => apply quiet_lift
  | |- quiet _ (call _ _) => apply quiet_call; reflexivity
  | |- quiet _ (if ?b then _ else _) => destruct b
  | |- quiet _ (match ?x with _ => _ end) => destruct x
  end.

Section Calls.

Variables ReadOnly ReadWrite : DyskType.
Variable VHD_HEADER_SIZE : Z.
Variable w : World.

(** What runs on the open device never opens or closes it. *)
Lemma validateLease_no_device (d : Dysk) :
  quiet is_device_call (validateLease ReadOnly w d).
Proof. unfold validateLease. repeat quiet_step. Qed.

Lemma validateDysk_no_device (d : Dysk) :
  quiet is_device_call (validateDysk ReadOnly ReadWrite w d).
Proof.
  unfold validateDysk. cbv zeta.
  repeat first [apply validateLease_no_device | quiet_step].
Qed.

Lemma pre_mount_no_device (c : dyskclient) (d : Dysk) :
  quiet is_device_call (pre_mount ReadOnly ReadWrite VHD_HEADER_SIZE w c d).
Proof.
  unfold pre_mount, set_pageblob_size, ensureBlobService. cbv zeta.
  repeat first [apply validateDysk_no_device | quiet_step].
Qed.

Lemma Syscall_IOCTL_no_device (code : Z) (buffer : list byte) :
  quiet is_device_call (Syscall_IOCTL w code buffer).
Proof.
  unfold Syscall_IOCTL. destruct (ioctl w code buffer) as [e written].
  apply quiet_call. reflexivity.
Qed.

Lemma get_no_device (name : string) : quiet is_device_call (get w name).
Proof.
  unfold get. cbv zeta.
  repeat first [apply Syscall_IOCTL_no_device | quiet_step].
Qed.

Lemma List_loop_no_device (names : list string) (idx last : Z) (dysks : list Dysk) :
  quiet is_device_call (List_loop VHD_HEADER_SIZE w names idx last dysks).
Proof.
  revert idx dysks. induction names as [|name names IH]; intros idx dysks.
  - apply quiet_ret.
  - cbn [List_loop]. destruct (idx =? last); [apply quiet_ret|].
    apply quiet_bind; [apply get_no_device|].
    intros [d|e]; [apply IH|apply quiet_ret].
Qed.

(** Neither validation nor the size fetch talks to the driver. *)
Lemma validateLease_no_ioctl (d : Dysk) :
  quiet is_ioctl (validateLease ReadOnly w d).
Proof. unfold validateLease. repeat quiet_step. Qed.

Lemma validateDysk_no_ioctl (d : Dysk) :
  quiet is_ioctl (validateDysk ReadOnly ReadWrite w d).
Proof.
  unfold validateDysk. cbv zeta.
  repeat first [apply validateLease_no_ioctl | quiet_step].
Qed.

Lemma pre_mount_no_ioctl (c : dyskclient) (d : Dysk) :
  quiet is_ioctl (pre_mount ReadOnly ReadWrite VHD_HEADER_SIZE w c d).
Proof.
  unfold pre_mount, set_pageblob_size, ensureBlobService. cbv zeta.
  repeat first [apply validateDysk_no_ioctl | quiet_step].
Qed.

Lemma bindM_snd {A B : Type} (m : M A) (k : A -> M B) :
  snd (bindM m k)
  = match snd m with Ret a => snd (k a) | Panic q => Panic q end.
Proof.
  destruct m as [t [a|q]]; cbn [bindM fst snd]; [|reflexivity].
  destruct (k a) as [t' r]. reflexivity.
Qed.

(** [validateDysk] changes no field but [host] and [ip]. *)
Lemma validateDysk_frame (d d' : Dysk) (t : list event) (err : option error) :
  validateDysk ReadOnly ReadWrite w d = (t, Ret (d', err)) ->
  exists h a, d' = set_ip (set_host d h) a.
Proof.
  assert (Hsame : forall x : Dysk, x = set_ip (set_host x (host x)) (ip x))
    by (intros []; reflexivity).
  assert (Hhost : forall (x : Dysk) h, set_host x h = set_ip (set_host x h) (ip x))
    by (intros [] h; reflexivity).
  unfold validateDysk. intros H.
  repeat match type of H with
         | (if ?b then _ else _) = _ =>
             destruct b eqn:?;
             [injection H as _ <- _; eexists; eexists; apply Hsame|]
         end.
  cbv zeta in H.
  repeat match type of H with
         | (if ?b then ret (d, _) else _) = _ =>
             destruct b eqn:?;
             [injection H as _ <- _; eexists; eexists; apply Hsame|]
         end.
  match type of H with
  | (if ?b then _ else _) = _ =>
      destruct b eqn:?; [injection H as _ <- _; eexists; eexists; apply Hhost|]
  end.
  unfold bindM, call, lift in H.
  destruct (LookupIP w _) as [addr|e].
  - destruct (index addr 0) as [a0|q]; [|discriminate H].
    destruct (validateLease ReadOnly w _) as [tl [e|q]]; [|discriminate H].
    injection H as _ <- _. eexists. eexists. reflexivity.
  - injection H as _ <- _. eexists. eexists. apply Hhost.
Qed.

(** [pre_mount] takes the account from the client and keeps what the caller
    said of type, name, path, lease, device numbers and image format. *)
Lemma pre_mount_frame (c : dyskclient) (d d' : Dysk) (t : list event)
    (err : option error) :
  pre_mount ReadOnly ReadWrite VHD_HEADER_SIZE w c d = (t, Ret (d', err)) ->
  Type_ d' = Type_ d /\ Name d' = Name d /\ Path d' = Path d
  /\ LeaseId d' = LeaseId d /\ Vhd d' = Vhd d
  /\ Major d' = Major d /\ Minor d' = Minor d
  /\ AccountName d' = storageAccountName c
  /\ AccountKey d' = storageAccountKey c.
Proof.
  unfold pre_mount, set_pageblob_size, ensureBlobService, bindM, call, ret.
  cbn [Path LeaseId set_account]. intros H.
  destruct (GetProperties w (Path d) (LeaseId d)) as [[contentLength page]|e];
    match type of H with
    | context [validateDysk _ _ _ ?d2] =>
        destruct (validateDysk ReadOnly ReadWrite w d2) as [t2 r2] eqn:Hv
    end;
    injection H as _ ->;
    apply validateDysk_frame in Hv; destruct Hv as (h & a & ->);
    repeat split; reflexivity.
Qed.

Lemma filter_quiet (p : event -> bool) (t : list event) :
  Forall (fun e => p e = false) t -> filter p t = [].
Proof.
  induction 1 as [|e t He _ IH]; [reflexivity|]. cbn [filter]. now rewrite He.
Qed.

Lemma quiet_not_In (p : event -> bool) (t : list event) (e : event) :
  Forall (fun e => p e = false) t -> p e = true -> ~ In e t.
Proof.
  intros Hq He Hin. rewrite Forall_forall in Hq. apply Hq in Hin. congruence.
Qed.

(** The calls of [Mount] once the device is open. *)
Lemma Mount_trace (c : dyskclient) (d : Dysk) :
  os_Open w = None ->
  fst (Mount ReadOnly ReadWrite VHD_HEADER_SIZE w c d)
  = EvOpen
    :: fst (pre_mount ReadOnly ReadWrite VHD_HEADER_SIZE w c d)
    ++ match snd (pre_mount ReadOnly ReadWrite VHD_HEADER_SIZE w c d) with
       | Ret (d1, None) =>
           match bufferize (dysk2string d1) with
           | Ret buffer => [EvIoctl IOCTLMOUNTDYSK buffer]
           | Panic _ => []
           end
       | _ => []
       end
    ++ [EvClose].
Proof.
  intros Hopen.
  unfold Mount, openDeviceFile, defer, closeDeviceFile, Syscall_IOCTL, bindM, call,
    lift, ret.
  rewrite Hopen.
  destruct (pre_mount ReadOnly ReadWrite VHD_HEADER_SIZE w c d)
    as [t1 [[d1 [e1|]]|q]]; cbn [fst snd]; try (now rewrite ?app_nil_r).
  destruct (bufferize (dysk2string d1)) as [buffer|q];
    [|cbn [fst app]; now rewrite ?app_nil_r].
  destruct (ioctl w IOCTLMOUNTDYSK buffer) as [e written].
  assert (Hshape : forall r : outcome (Dysk * option error),
             fst ([EvOpen] ++ (t1 ++ [] ++ [EvIoctl IOCTLMOUNTDYSK buffer] ++ [])
                              ++ [EvClose], r)
             = EvOpen :: t1 ++ [EvIoctl IOCTLMOUNTDYSK buffer] ++ [EvClose]).
  { intros r. cbn [fst app]. now rewrite <- app_assoc. }
  assert (Hshape' : forall r : outcome (Dysk * option error),
             fst ([EvOpen] ++ (t1 ++ [] ++ [EvIoctl IOCTLMOUNTDYSK buffer])
                              ++ [EvClose], r)
             = EvOpen :: t1 ++ [EvIoctl IOCTLMOUNTDYSK buffer] ++ [EvClose]).
  { intros r. cbn [fst app]. now rewrite <- app_assoc. }
  destruct (negb (e =? 0)); [apply Hshape'|].
  destruct (parseResponse (overwrite buffer written)) as [res|q];
    [|apply Hshape'].
  destruct (is_error res); [apply Hshape|].
  destruct (string2dysk (response res)) as [[nd|e2]|q];
    first [apply Hshape | apply Hshape'].
Qed.

End Calls.

End TraceFacts.

(** ** The device file and the driver *)
Module SessionFacts.

Import Go Strings Strconv Client Vocabulary StringsFacts StrconvFacts.
Import BufferFacts LayoutFacts TraceFacts.

Section Sessions.

Variables ReadOnly ReadWrite : DyskType.
Variable VHD_HEADER_SIZE : Z.
Variable w : World.
Variable isValidDeviceName : string -> option error.

(** The shape of a trace that opens the device, works, and closes it. *)
Lemma session_trace {A : Type} (body : M A) (fail : error -> M A) :
  quiet is_device_call body ->
  (forall e, fail e = ([], snd (fail e))) ->
  let t := fst (err <~ openDeviceFile w ;;
                match err with
                | Some e => fail e
                | None => defer closeDeviceFile body
                end) in
  match os_Open w with
  | Some _ => t = [EvOpen]
  | None =>
      exists work,
        t = EvOpen :: work ++ [EvClose]
        /\ Forall (fun e => is_device_call e = false) work
  end.
Proof.
  intros Hq Hfail t. subst t. rewrite bindM_fst. unfold openDeviceFile, call.
  cbn [fst snd]. destruct (os_Open w) as [e|].
  - rewrite Hfail. reflexivity.
  - exists (fst body). rewrite defer_fst. split; [reflexivity|exact Hq].
Qed.

(** X5: [Mount], [List], [Unmount] and [Get] open the device file at most
    once.  When the open fails nothing else is issued; when it succeeds the
    file is closed exactly once, as the last call, whether the operation
    returns a value, returns an error or panics.  [Unmount] and [Get] on a
    name that fails the name check issue no call at all. *)
Theorem device_closed_once (c : dyskclient) (d : Dysk) (name : string) :
  let session := fun t : list event =>
    match os_Open w with
    | Some _ => t = [EvOpen]
    | None =>
        exists work,
          t = EvOpen :: work ++ [EvClose]
          /\ Forall (fun e => is_device_call e = false) work
    end in
  session (fst (Mount ReadOnly ReadWrite VHD_HEADER_SIZE w c d))
  /\ session (fst (List VHD_HEADER_SIZE w))
  /\ match isValidDeviceName name with
     | Some _ =>
         fst (Unmount w isValidDeviceName name) = []
         /\ fst (Get VHD_HEADER_SIZE w isValidDeviceName name) = []
     | None =>
         session (fst (Unmount w isValidDeviceName name))
         /\ session (fst (Get VHD_HEADER_SIZE w isValidDeviceName name))
     end.
Proof.
  intros session. subst session. cbv beta.
  split; [|split].
  - unfold Mount. apply session_trace; [|reflexivity].
    apply quiet_bind; [apply pre_mount_no_device|]. intros [d1 err].
    repeat first [apply Syscall_IOCTL_no_device | quiet_step].
  - unfold List. apply session_trace; [|reflexivity].
    apply quiet_bind; [apply quiet_lift|]. intros buffer.
    apply quiet_bind; [apply Syscall_IOCTL_no_device|]. intros [e buf].
    destruct (negb (e =? 0)); [apply quiet_ret|].
    apply quiet_bind; [apply quiet_lift|]. intros res.
    destruct (is_error res); [apply quiet_ret|].
    apply List_loop_no_device.
  - unfold Unmount, Get. destruct (isValidDeviceName name) as [e|].
    + split; reflexivity.
    + split.
      * apply session_trace; [|reflexivity]. cbv zeta.
        repeat first [apply Syscall_IOCTL_no_device | quiet_step].
      * apply session_trace; [|reflexivity].
        apply quiet_bind; [apply get_no_device|]. intros [d1|e]; apply quiet_ret.
Qed.

End Sessions.

End SessionFacts.

(** ** Validation and mounting *)
Module LifecycleFacts.

Import Go Strings Strconv Client Vocabulary StringsFacts StrconvFacts.
Import BufferFacts LayoutFacts TraceFacts.

Section Lifecycle.

Variables ReadOnly ReadWrite : DyskType.
Variable VHD_HEADER_SIZE : Z.
Variable w : World.

(** X6: a descriptor that passes [validateDysk] satisfies every field check
    and has a non-zero sector count; it comes back with the host derived
    from its account name and with the first address the resolver gave for
    that host as its ip, all other fields as they were, and its lease
    validation has returned no error. *)
Theorem validateDysk_sound (d d' : Dysk) (t : list event) :
  validateDysk ReadOnly ReadWrite w d = (t, Ret (d', None)) ->
  let derived := (AccountName d ++ ".blob.core.windows.net")%string in
  supplied_fields_ok ReadOnly ReadWrite
    {| storageAccountName := AccountName d; storageAccountKey := AccountKey d |} d
  = true
  /\ sectorCount d <> 0
  /\ d' = set_ip (set_host d derived) (ip d')
  /\ (exists more, LookupIP w derived = inl (ip d' :: more))
  /\ snd (validateLease ReadOnly w d') = Ret None.
Proof.
  intros H derived. revert H.
  unfold validateDysk, supplied_fields_ok, ret.
  cbn [storageAccountName storageAccountKey]. intros H.
  destruct ((len (Type_ d) =? 0) || _) eqn:E1; [discriminate H|].
  destruct ((len (Name d) =? 0) || _) eqn:E2; [discriminate H|].
  destruct (Contains (Name d) "/" || _ || _) eqn:E3; [discriminate H|].
  destruct (sectorCount d =? 0) eqn:E4; [discriminate H|].
  destruct ((len (AccountName d) =? 0) || _) eqn:E5; [discriminate H|].
  destruct ((len (AccountKey d) =? 0) || _) eqn:E6; [discriminate H|].
  cbv zeta in H.
  destruct ((len (Path d) =? 0) || _) eqn:E7; [discriminate H|].
  destruct ((0 <? len (host d)) && _) eqn:E8; [discriminate H|].
  cbn [LeaseId set_host host AccountName] in H.
  destruct ((len (LeaseId d) =? 0) || _) eqn:E9; [discriminate H|].
  unfold bindM, call, lift in H. fold derived in H.
  destruct (LookupIP w derived) as [addr|e] eqn:EL; [|discriminate H].
  destruct addr as [|a0 more]; [discriminate H|]. cbn [index nth_error] in H.
  destruct (validateLease ReadOnly w (set_ip (set_host d derived) a0))
    as [tl [err|q]] eqn:EV; [|discriminate H].
  injection H as _ <- <-.
  split; [reflexivity|]. split; [now apply Z.eqb_neq|].
  split; [reflexivity|]. split; [exists more; reflexivity|].
  cbn [ip set_ip]. now rewrite EV.
Qed.

(** X7: lease validation writes metadata only as its last step: never for
    a read-only disk, and for any other disk only after the container and
    the blob were found and the properties read under the lease showed a page
    blob; for such a disk validation succeeds exactly when that write does. *)
Theorem validateLease_write_probe (d : Dysk) :
  let t := fst (validateLease ReadOnly w d) in
  let reads := [EvContainerExists (Path d); EvBlobExists (Path d);
                EvGetProperties (Path d) (LeaseId d)] in
  (String.eqb ReadOnly (Type_ d) = true ->
   Forall (fun e => is_metadata_write e = false) t)
  /\ (String.eqb ReadOnly (Type_ d) = false ->
      (Forall (fun e => is_metadata_write e = false) t
       /\ snd (validateLease ReadOnly w d) <> Ret None)
      \/ (t = reads ++ [EvSetMetadata (Path d) (LeaseId d)]
          /\ ContainerExists w (Path d) = inl true
          /\ BlobExists w (Path d) = inl true
          /\ (exists n, GetProperties w (Path d) (LeaseId d) = inl (n, true))
          /\ snd (validateLease ReadOnly w d)
             = Ret (SetMetadata w (Path d) (LeaseId d)))).
Proof.
  intros t reads. subst t reads. unfold validateLease, bindM, call, ret.
  destruct (ContainerExists w (Path d)) as [[|]|e1];
    [destruct (BlobExists w (Path d)) as [[|]|e2];
     [destruct (GetProperties w (Path d) (LeaseId d)) as [[n [|]]|e3]| |]| |];
    cbn [fst snd app].
  2-7: split; intros _; [|left; split; [|discriminate]];
       repeat constructor.
  destruct (String.eqb ReadOnly (Type_ d)) eqn:E; cbn [fst snd app].
  - split; [intros _; repeat constructor|discriminate].
  - split; [discriminate|]. intros _. right.
    split; [reflexivity|]. split; [reflexivity|]. split; [reflexivity|].
    split; [exists n; reflexivity|reflexivity].
Qed.

(** X8: whatever [Mount] returns, the descriptor it hands back has the
    caller's type, name, path, lease id and image flag; when it returns an
    error the device numbers are the caller's too. *)
Theorem Mount_frame (c : dyskclient) (d d' : Dysk) (err : option error) :
  snd (Mount ReadOnly ReadWrite VHD_HEADER_SIZE w c d) = Ret (d', err) ->
  Type_ d' = Type_ d /\ Name d' = Name d /\ Path d' = Path d
  /\ LeaseId d' = LeaseId d /\ Vhd d' = Vhd d
  /\ (err <> None -> Major d' = Major d /\ Minor d' = Minor d).
Proof.
  unfold Mount. rewrite bindM_snd. unfold openDeviceFile, call. cbn [snd].
  destruct (os_Open w) as [e|].
  - intros [= <- <-]. repeat split; reflexivity.
  - rewrite defer_snd, bindM_snd.
    destruct (pre_mount ReadOnly ReadWrite VHD_HEADER_SIZE w c d)
      as [t1 [[d1 e1]|q]] eqn:Hpre; cbn [snd]; [|discriminate].
    destruct (pre_mount_frame _ _ _ _ _ _ _ _ _ Hpre)
      as (Ht & Hn & Hp & Hl & Hv & Hmj & Hmn & _ & _).
    destruct e1 as [e1|].
    + intros [= <- <-]. repeat split; assumption.
    + rewrite bindM_snd. unfold lift. cbn [snd].
      destruct (bufferize (dysk2string d1)) as [buffer|q]; [|discriminate].
      rewrite bindM_snd. unfold Syscall_IOCTL.
      destruct (ioctl w IOCTLMOUNTDYSK buffer) as [e written]. unfold call. cbn [snd].
      destruct (negb (e =? 0)).
      { intros [= <- <-]. repeat split; assumption. }
      rewrite bindM_snd. cbn [snd].
      destruct (parseResponse (overwrite buffer written)) as [res|q]; [|discriminate].
      destruct (is_error res).
      { intros [= <- <-]. repeat split; assumption. }
      rewrite bindM_snd. cbn [snd].
      destruct (string2dysk (response res)) as [[nd|e2]|q]; [| |discriminate].
      * intros [= <- <-]. cbn [Type_ Name Path LeaseId Vhd set_devnums].
        do 5 (split; [assumption|]). intros Hne. now contradiction Hne.
      * intros [= <- <-]. repeat split; assumption.
Qed.

(** X9: [Mount] talks to the driver at most once, with the mount command,
    and only after [pre_mount] has returned without error; the buffer it
    sends is the padded encoding of the descriptor [pre_mount] produced. *)
Theorem Mount_single_ioctl (c : dyskclient) (d : Dysk) :
  let t := fst (Mount ReadOnly ReadWrite VHD_HEADER_SIZE w c d) in
  (List.length (filter is_ioctl t) <= 1)%nat
  /\ forall code buffer,
       In (EvIoctl code buffer) t ->
       code = IOCTLMOUNTDYSK
       /\ exists t1 d1,
            pre_mount ReadOnly ReadWrite VHD_HEADER_SIZE w c d = (t1, Ret (d1, None))
            /\ bufferize (dysk2string d1) = Ret buffer.
Proof.
  intros t. subst t.
  destruct (os_Open w) as [e|] eqn:Hopen.
  - unfold Mount, openDeviceFile, bindM, call, ret. rewrite Hopen. cbn.
    split; [lia|]. intros code buffer [H|[]]. discriminate H.
  - rewrite (Mount_trace _ _ _ _ c d Hopen).
    assert (Hq := pre_mount_no_ioctl ReadOnly ReadWrite VHD_HEADER_SIZE w c d).
    unfold quiet in Hq.
    destruct (pre_mount ReadOnly ReadWrite VHD_HEADER_SIZE w c d)
      as [t1 r1] eqn:Hpre. cbn [fst snd] in *.
    set (tail := match r1 with
                 | Ret (d1, None) =>
                     match bufferize (dysk2string d1) with
                     | Ret buffer => [EvIoctl IOCTLMOUNTDYSK buffer]
                     | Panic _ => []
                     end
                 | _ => []
                 end).
    split.
    + cbn [filter is_ioctl]. rewrite !filter_app, (filter_quiet _ _ Hq).
      cbn [app filter is_ioctl]. rewrite app_nil_r.
      subst tail. destruct r1 as [[d1 [e1|]]|q]; try (cbn; lia).
      destruct (bufferize (dysk2string d1)); cbn; lia.
    + intros code buffer [H|H]; [discriminate H|].
      rewrite !in_app_iff in H. destruct H as [H|[H|[H|[]]]]; [| |discriminate H].
      * exfalso. exact (quiet_not_In is_ioctl t1 (EvIoctl code buffer) Hq eq_refl H).
      * subst tail. destruct r1 as [[d1 [e1|]]|q]; try contradiction.
        destruct (bufferize (dysk2string d1)) as [b|q] eqn:Hb; [|contradiction].
        destruct H as [H|[]]. injection H as <- <-.
        split; [reflexivity|]. exists t1, d1. split; [reflexivity|exact Hb].
Qed.

End Lifecycle.

Lemma validateDysk_sound_witness :
  exists t d',
    validateDysk "R" "RW" (cloud driver (inl (GiB, true))) disk1 = (t, Ret (d', None))
    /\ supplied_fields_ok "R" "RW"
         {| storageAccountName := AccountName disk1;
            storageAccountKey := AccountKey disk1 |} disk1 = true
    /\ sectorCount disk1 <> 0
    /\ d' = set_ip (set_host disk1 (AccountName disk1 ++ ".blob.core.windows.net"))
                   (ip d')
    /\ (exists more,
           LookupIP (cloud driver (inl (GiB, true)))
                    (AccountName disk1 ++ ".blob.core.windows.net")
           = inl (ip d' :: more))
    /\ snd (validateLease "R" (cloud driver (inl (GiB, true))) d') = Ret None.
Proof.
  destruct (validateDysk "R" "RW" (cloud driver (inl (GiB, true))) disk1)
    as [t [[d' [e|]]|q]] eqn:E;
    try (vm_compute in E; discriminate E).
  exists t, d'. split; [reflexivity|].
  exact (validateDysk_sound "R" "RW" (cloud driver (inl (GiB, true))) disk1 d' t E).
Defined.

Lemma Mount_frame_witness :
  exists d' err,
    snd (Mount "R" "RW" 512 (cloud driver (inl (GiB, true))) acct disk1)
    = Ret (d', err)
    /\ Type_ d' = Type_ disk1 /\ Name d' = Name disk1 /\ Path d' = Path disk1
    /\ LeaseId d' = LeaseId disk1 /\ Vhd d' = Vhd disk1
    /\ (err <> None -> Major d' = Major disk1 /\ Minor d' = Minor disk1).
Proof.
  destruct (snd (Mount "R" "RW" 512 (cloud driver (inl (GiB, true))) acct disk1))
    as [[d' err]|q] eqn:E; [|vm_compute in E; discriminate E].
  exists d', err. split; [reflexivity|].
  exact (Mount_frame "R" "RW" 512 (cloud driver (inl (GiB, true))) acct disk1 d' err E).
Defined.

End LifecycleFacts.

(** ** Sizes and sector counts *)
Module SizeFacts.

Import Go Strings Strconv Client Vocabulary StringsFacts StrconvFacts.
Import BufferFacts LayoutFacts TraceFacts.

Lemma int64_id (z : Z) : - 2 ^ 63 <= z < 2 ^ 63 -> to_int64 z = z.
Proof.
  intros Hz. unfold to_int64.
  assert (H63 : 2 ^ 63 = 9223372036854775808) by reflexivity.
  assert (H64 : 2 ^ 64 = 18446744073709551616) by reflexivity.
  rewrite H63, H64 in *. rewrite Z.mod_small by lia. lia.
Qed.

Lemma uint64_id (z : Z) : 0 <= z < 2 ^ 64 -> to_uint64 z = z.
Proof. intros Hz. unfold to_uint64. now apply Z.mod_small. Qed.

Lemma uint64_neg (z : Z) : 0 < z <= 2 ^ 64 -> to_uint64 (- z) = 2 ^ 64 - z.
Proof.
  intros Hz. unfold to_uint64.
  assert (H64 : 2 ^ 64 = 18446744073709551616) by reflexivity.
  rewrite H64 in *.
  replace (- z) with (18446744073709551616 - z + (-1) * 18446744073709551616) by lia.
  rewrite Z.mod_add by lia. apply Z.mod_small. lia.
Qed.

Section Sizes.

Variables ReadOnly ReadWrite : DyskType.
Variable VHD_HEADER_SIZE : Z.
Variable w : World.

(** The size and the sector count [pre_mount] leaves in the descriptor. *)
Lemma pre_mount_sizes (c : dyskclient) (d d' : Dysk) (t : list event)
    (err : option error) :
  pre_mount ReadOnly ReadWrite VHD_HEADER_SIZE w c d = (t, Ret (d', err)) ->
  Vhd d' = Vhd d
  /\ SizeGB d' = match GetProperties w (Path d) (LeaseId d) with
                 | inl (contentLength, _) =>
                     to_int64 (Z.quot contentLength (1024 * 1024 * 1024))
                 | inr _ => SizeGB d
                 end
  /\ sectorCount d'
     = to_uint64
         (Z.quot (if Vhd d
                  then to_int64 (to_int64 (SizeGB d' * (1024 * 1024 * 1024))
                                 - VHD_HEADER_SIZE)
                  else to_int64 (SizeGB d' * (1024 * 1024 * 1024))) 512).
Proof.
  unfold pre_mount, set_pageblob_size, ensureBlobService, bindM, call, ret.
  cbn [Path LeaseId set_account]. intros H.
  destruct (GetProperties w (Path d) (LeaseId d)) as [[contentLength page]|e];
    match type of H with
    | context [validateDysk _ _ _ ?d2] =>
        destruct (validateDysk ReadOnly ReadWrite w d2) as [t2 r2] eqn:Hv
    end;
    injection H as _ ->;
    apply validateDysk_frame in Hv; destruct Hv as (h & a & ->);
    cbn [Vhd SizeGB sectorCount set_ip set_host set_sectorCount set_SizeGB set_account];
    destruct (Vhd d); repeat split; reflexivity.
Qed.

(** X10: when the store reports the blob's length, [pre_mount] takes the
    size in whole GiB, rounding down, and derives the sector count from
    that size, not from the length: 2097152 sectors per GiB for a plain disk,
    and the whole GiB less the header, in sectors, for an image with room
    for its header. *)
Theorem pre_mount_sector_count (c : dyskclient) (d d' : Dysk) (t : list event)
    (err : option error) (contentLength : Z) (page : bool) :
  GetProperties w (Path d) (LeaseId d) = inl (contentLength, page) ->
  0 <= contentLength < 2 ^ 63 ->
  pre_mount ReadOnly ReadWrite VHD_HEADER_SIZE w c d = (t, Ret (d', err)) ->
  SizeGB d' = contentLength / GiB
  /\ (Vhd d = false -> sectorCount d' = contentLength / GiB * 2097152)
  /\ (Vhd d = true ->
      0 <= VHD_HEADER_SIZE <= contentLength / GiB * GiB ->
      sectorCount d' = (contentLength / GiB * GiB - VHD_HEADER_SIZE) / 512).
Proof.
  intros Hprops Hlen Hpre.
  destruct (pre_mount_sizes c d d' t err Hpre) as (_ & Hsize & Hsc).
  rewrite Hprops in Hsize.
  assert (HG : GiB = 1073741824) by reflexivity.
  assert (H63 : 2 ^ 63 = 9223372036854775808) by reflexivity.
  assert (H64 : 2 ^ 64 = 18446744073709551616) by reflexivity.
  change (1024 * 1024 * 1024) with GiB in *.
  rewrite Z.quot_div_nonneg in Hsize by lia.
  assert (Hg : 0 <= contentLength / GiB <= contentLength / GiB * GiB
               /\ contentLength / GiB * GiB <= contentLength).
  { assert (0 <= contentLength / GiB) by (apply Z.div_pos; lia).
    split; [nia|]. rewrite Z.mul_comm. apply Z.mul_div_le. lia. }
  rewrite int64_id in Hsize by lia.
  split; [exact Hsize|]. rewrite Hsize in Hsc. split.
  - intros Hv. rewrite Hv in Hsc. rewrite Hsc.
    rewrite int64_id by lia. rewrite Z.quot_div_nonneg by lia.
    rewrite HG. replace (contentLength / 1073741824 * 1073741824)
      with (contentLength / 1073741824 * 2097152 * 512) by lia.
    rewrite Z.div_mul by lia. apply uint64_id. rewrite HG in Hg. lia.
  - intros Hv Hh. rewrite Hv in Hsc. rewrite Hsc.
    rewrite (int64_id (contentLength / GiB * GiB)) by lia.
    rewrite int64_id by lia. rewrite Z.quot_div_nonneg by lia.
    apply uint64_id. split; [apply Z.div_pos; lia|].
    apply Z.div_lt_upper_bound; lia.
Qed.

(** X11: an image-format blob shorter than 1 GiB counts as zero GiB;
    subtracting a header of at least one sector then gives a negative byte
    size, and the sector count wraps to 2^64 less the header's sectors, which
    the sector-count check of the validator takes as non-zero. *)
Theorem pre_mount_small_image_wraps (c : dyskclient) (d d' : Dysk)
    (t : list event) (err : option error) (contentLength : Z) (page : bool) :
  GetProperties w (Path d) (LeaseId d) = inl (contentLength, page) ->
  0 <= contentLength < GiB ->
  Vhd d = true ->
  512 <= VHD_HEADER_SIZE < 2 ^ 63 ->
  pre_mount ReadOnly ReadWrite VHD_HEADER_SIZE w c d = (t, Ret (d', err)) ->
  SizeGB d' = 0
  /\ sectorCount d' = 2 ^ 64 - VHD_HEADER_SIZE / 512
  /\ sectorCount d' <> 0.
Proof.
  intros Hprops Hlen Hv Hh Hpre.
  destruct (pre_mount_sizes c d d' t err Hpre) as (_ & Hsize & Hsc).
  rewrite Hprops in Hsize. rewrite Hv in Hsc.
  assert (HG : GiB = 1073741824) by reflexivity.
  assert (H63 : 2 ^ 63 = 9223372036854775808) by reflexivity.
  assert (H64 : 2 ^ 64 = 18446744073709551616) by reflexivity.
  change (1024 * 1024 * 1024) with GiB in *.
  rewrite Z.quot_div_nonneg, Z.div_small in Hsize by lia.
  change (to_int64 0) with 0 in Hsize.
  rewrite Hsize in Hsc. change (to_int64 (0 * GiB)) with 0 in Hsc.
  rewrite int64_id in Hsc by lia.
  replace (0 - VHD_HEADER_SIZE) with (- VHD_HEADER_SIZE) in Hsc by lia.
  rewrite Z.quot_opp_l, Z.quot_div_nonneg in Hsc by lia.
  assert (Hq : 1 <= VHD_HEADER_SIZE / 512 < 2 ^ 63).
  { split; [apply Z.div_le_lower_bound; lia|].
    apply Z.div_lt_upper_bound; lia. }
  rewrite uint64_neg in Hsc by lia.
  split; [exact Hsize|]. split; [exact Hsc|]. lia.
Qed.

(** X12: for a disk that is not image-format, [post_get] after [pre_mount]
    returns the size [pre_mount] left in the descriptor whenever that size
    in bytes fits Go's [int]. *)
Theorem plain_size_reconciled (c : dyskclient) (d d' : Dysk)
    (t : list event) (err : option error) :
  Vhd d = false ->
  pre_mount ReadOnly ReadWrite VHD_HEADER_SIZE w c d = (t, Ret (d', err)) ->
  0 <= SizeGB d' * GiB < 2 ^ 63 ->
  SizeGB (post_get VHD_HEADER_SIZE d') = SizeGB d'
  /\ sectorCount d' = SizeGB d' * 2097152.
Proof.
  intros Hv Hpre Hg.
  destruct (pre_mount_sizes c d d' t err Hpre) as (Hv' & _ & Hsc).
  rewrite Hv in *.
  assert (HG : GiB = 1073741824) by reflexivity.
  assert (H63 : 2 ^ 63 = 9223372036854775808) by reflexivity.
  assert (H64 : 2 ^ 64 = 18446744073709551616) by reflexivity.
  change (1024 * 1024 * 1024) with GiB in *.
  rewrite int64_id, Z.quot_div_nonneg in Hsc by lia.
  rewrite HG in Hsc, Hg.
  replace (SizeGB d' * 1073741824) with (SizeGB d' * 2097152 * 512) in Hsc by lia.
  rewrite Z.div_mul, uint64_id in Hsc by lia.
  split; [|exact Hsc].
  unfold post_get. rewrite Hv', Hsc. cbn [SizeGB set_SizeGB].
  replace (SizeGB d' * 2097152 * 512) with (SizeGB d' * 1073741824) by lia.
  rewrite uint64_id by lia.
  change (1024 * 1024 * 1024) with 1073741824.
  rewrite Z.div_mul by lia. apply int64_id. lia.
Qed.

(** X22: a disk that is not image-format and whose size in whole GiB is
    zero (a blob shorter than 1 GiB, or no size from the store and none from
    the caller) is rejected by [pre_mount] with the sector-count error, after
    the property fetch and before any other call, even when every supplied
    field is valid. *)
Theorem pre_mount_rejects_small_blob (c : dyskclient) (d : Dysk) :
  match GetProperties w (Path d) (LeaseId d) with
  | inl (contentLength, _) => 0 <= contentLength < GiB
  | inr _ => SizeGB d = 0
  end ->
  Vhd d = false ->
  supplied_fields_ok ReadOnly ReadWrite c d = true ->
  exists d',
    pre_mount ReadOnly ReadWrite VHD_HEADER_SIZE w c d
    = ([EvNewBasicClient (storageAccountName c) (storageAccountKey c);
        EvGetProperties (Path d) (LeaseId d)],
       Ret (d', Some (Errorf "Invalid Sector count.")))
    /\ sectorCount d' = 0.
Proof.
  intros Hsize Hv Hok.
  unfold supplied_fields_ok in Hok. repeat rewrite andb_true_iff in Hok.
  destruct Hok as (((((((H1 & H2) & H3) & _) & _) & _) & _) & _).
  apply negb_true_iff in H1, H2, H3.
  assert (HG : GiB = 1073741824) by reflexivity.
  unfold pre_mount, set_pageblob_size, ensureBlobService, bindM, call, ret.
  cbn [Path LeaseId set_account].
  destruct (GetProperties w (Path d) (LeaseId d)) as [[contentLength page]|e];
    cbn [Vhd SizeGB set_SizeGB set_account]; rewrite Hv.
  - change (1024 * 1024 * 1024) with GiB.
    rewrite Z.quot_div_nonneg, Z.div_small by lia.
    change (to_uint64 (Z.quot (to_int64 (to_int64 0 * GiB)) 512)) with 0.
    unfold validateDysk.
    cbn [Type_ Name sectorCount set_sectorCount set_SizeGB set_account].
    rewrite H1, H2, H3. eexists. split; reflexivity.
  - rewrite Hsize.
    change (to_uint64 (Z.quot (to_int64 (0 * (1024 * 1024 * 1024))) 512)) with 0.
    unfold validateDysk.
    cbn [Type_ Name sectorCount set_sectorCount set_SizeGB set_account].
    rewrite H1, H2, H3. eexists. split; reflexivity.
Qed.

End Sizes.

Lemma pre_mount_rejects_small_blob_witness :
  exists d',
    pre_mount "R" "RW" 512 (cloud driver (inl (4096, true))) acct disk1
    = ([EvNewBasicClient (storageAccountName acct) (storageAccountKey acct);
        EvGetProperties (Path disk1) (LeaseId disk1)],
       Ret (d', Some (Errorf "Invalid Sector count.")))
    /\ sectorCount d' = 0.
Proof.
  apply (pre_mount_rejects_small_blob "R" "RW" 512 (cloud driver (inl (4096, true)))
           acct disk1);
    first [reflexivity | vm_compute; split; congruence].
Defined.

Lemma pre_mount_sector_count_witness :
  let w := cloud driver (inl (3 * GiB + 5, true)) in
  exists t d' err,
    pre_mount "R" "RW" 512 w acct (with_vhd disk1 true 0) = (t, Ret (d', err))
    /\ SizeGB d' = (3 * GiB + 5) / GiB
    /\ (Vhd (with_vhd disk1 true 0) = false ->
        sectorCount d' = (3 * GiB + 5) / GiB * 2097152)
    /\ (Vhd (with_vhd disk1 true 0) = true ->
        0 <= 512 <= (3 * GiB + 5) / GiB * GiB ->
        sectorCount d' = ((3 * GiB + 5) / GiB * GiB - 512) / 512).
Proof.
  intros w.
  destruct (pre_mount "R" "RW" 512 w acct (with_vhd disk1 true 0))
    as [t [[d' err]|q]] eqn:E; [|vm_compute in E; discriminate E].
  exists t, d', err. split; [reflexivity|].
  apply (pre_mount_sector_count "R" "RW" 512 w acct (with_vhd disk1 true 0) d' t err
           (3 * GiB + 5) true); [reflexivity|vm_compute; split; congruence|exact E].
Defined.

Lemma pre_mount_small_image_wraps_witness :
  let w := cloud driver (inl (4096, true)) in
  exists t d' err,
    pre_mount "R" "RW" 512 w acct (with_vhd disk1 true 0) = (t, Ret (d', err))
    /\ SizeGB d' = 0
    /\ sectorCount d' = 2 ^ 64 - 512 / 512
    /\ sectorCount d' <> 0.
Proof.
  intros w.
  destruct (pre_mount "R" "RW" 512 w acct (with_vhd disk1 true 0))
    as [t [[d' err]|q]] eqn:E; [|vm_compute in E; discriminate E].
  exists t, d', err. split; [reflexivity|].
  apply (pre_mount_small_image_wraps "R" "RW" 512 w acct (with_vhd disk1 true 0)
           d' t err 4096 true);
    [reflexivity|vm_compute; split; congruence|reflexivity
     |vm_compute; split; congruence|exact E].
Defined.

Lemma plain_size_reconciled_witness :
  let w := cloud driver (inl (2 * GiB, true)) in
  exists t d' err,
    pre_mount "R" "RW" 512 w acct disk1 = (t, Ret (d', err))
    /\ SizeGB (post_get 512 d') = SizeGB d'
    /\ sectorCount d' = SizeGB d' * 2097152.
Proof.
  intros w.
  destruct (pre_mount "R" "RW" 512 w acct disk1) as [t [[d' err]|q]] eqn:E;
    [|vm_compute in E; discriminate E].
  exists t, d', err. split; [reflexivity|].
  assert (Hd : SizeGB d' = 2) by (vm_compute in E; now injection E as _ <- _).
  apply (plain_size_reconciled "R" "RW" 512 w acct disk1 d' t err);
    [reflexivity|exact E|rewrite Hd; vm_compute; split; congruence].
Defined.

End SizeFacts.

(** ** Exchanges with the driver *)
Module ExchangeFacts.

Import Go Strings Strconv Client Vocabulary StringsFacts StrconvFacts.
Import BufferFacts LayoutFacts TraceFacts.

(** The text of the buffer after the driver wrote a reply that fits. *)
Lemma reply_text (buffer written : list byte) (status payload : string) :
  (List.length written <= List.length buffer)%nat ->
  string_of_list_byte written = (status ++ String LF payload)%string ->
  string_of_list_byte (overwrite buffer written)
  = (status
     ++ String LF (payload
                   ++ string_of_list_byte (skipn (List.length written) buffer)))%string.
Proof.
  intros Hfit Htext. rewrite overwrite_fits by exact Hfit.
  rewrite sob_app, Htext, append_assoc. reflexivity.
Qed.

Lemma parse_reply (buffer written : list byte) (status payload : string) :
  (List.length written <= List.length buffer)%nat ->
  string_of_list_byte written = (status ++ String LF payload)%string ->
  Contains status LF = false ->
  parseResponse (overwrite buffer written)
  = Ret {| is_error := String.eqb status "ERR";
           response :=
             (payload
              ++ string_of_list_byte (skipn (List.length written) buffer))%string |}.
Proof.
  intros Hfit Htext Hst.
  apply parseResponse_text; [|exact Hst]. now apply reply_text.
Qed.

Lemma not_ERR (status : string) : status <> "ERR" -> String.eqb status "ERR" = false.
Proof. intros H. now apply String.eqb_neq. Qed.

Section Exchanges.

Variables ReadOnly ReadWrite : DyskType.
Variable VHD_HEADER_SIZE : Z.
Variable w : World.
Variable isValidDeviceName : string -> option error.

(** X13: [get] sends the name, a line feed and a zero byte in one get-one
    command; when the driver answers with a status line other than "ERR"
    followed by a descriptor in the twelve-line layout, [get] returns that
    descriptor with the driver's device numbers, whatever is left in the
    buffer behind the reply. *)
Theorem get_decodes_reply (name status : string) (d : Dysk) (major minor : Z)
    (buffer written : list byte) :
  bufferize (name_request name) = Ret buffer ->
  ioctl w IOCTGETDYSK buffer = (0, written) ->
  string_of_list_byte written
  = (status ++ String LF (twelve_lines d major minor))%string ->
  (List.length written <= 2048)%nat ->
  Contains status LF = false ->
  status <> "ERR" ->
  newline_free d ->
  0 <= sectorCount d < 2 ^ 64 ->
  - 2 ^ 63 <= major < 2 ^ 63 ->
  - 2 ^ 63 <= minor < 2 ^ 63 ->
  get w name
  = ([EvIoctl IOCTGETDYSK buffer],
     Ret (inl (set_devnums (set_SizeGB d 0) major minor))).
Proof.
  intros Hbuf Hioctl Htext Hfit Hst Hok Hnl Hsc Hmaj Hmin.
  destruct (bufferize_returns _ _ Hbuf) as [_ Hlen].
  unfold get. fold (name_request name).
  rewrite Hbuf, bind_lift_ret, (Syscall_IOCTL_eq _ _ _ _ _ Hioctl), bind_call.
  cbv beta iota. change (negb (0 =? 0)) with false. cbv iota.
  rewrite (parse_reply buffer written status (twelve_lines d major minor))
    by (try assumption; lia).
  rewrite bind_lift_ret. cbn [is_error response]. rewrite (not_ERR status Hok).
  rewrite string2dysk_reply by assumption. reflexivity.
Qed.


(** X15: [Unmount] on an accepted name, with the device open, sends one
    unmount command.  A non-zero errno is returned as the error; otherwise
    any status line other than "ERR" means success, whatever follows it. *)
Theorem Unmount_result (name : string) (buffer written : list byte) (e : Z) :
  isValidDeviceName name = None ->
  os_Open w = None ->
  bufferize (name_request name) = Ret buffer ->
  ioctl w IOCTLUNMOUNTDYSK buffer = (e, written) ->
  (e <> 0 ->
   Unmount w isValidDeviceName name
   = ([EvOpen; EvIoctl IOCTLUNMOUNTDYSK buffer; EvClose], Ret (Some (Errno e))))
  /\ (e = 0 ->
      forall status payload,
        string_of_list_byte written = (status ++ String LF payload)%string ->
        (List.length written <= 2048)%nat ->
        Contains status LF = false ->
        status <> "ERR" ->
        Unmount w isValidDeviceName name
        = ([EvOpen; EvIoctl IOCTLUNMOUNTDYSK buffer; EvClose], Ret None)).
Proof.
  intros Hname Hopen Hbuf Hioctl.
  destruct (bufferize_returns _ _ Hbuf) as [_ Hlen].
  unfold Unmount. rewrite Hname.
  unfold openDeviceFile. rewrite Hopen, bind_call. cbv beta iota zeta.
  fold (name_request name).
  rewrite Hbuf, bind_lift_ret, (Syscall_IOCTL_eq _ _ _ _ _ Hioctl), bind_call.
  cbv beta iota. split.
  - intros He. apply Z.eqb_neq in He. rewrite He. reflexivity.
  - intros -> status payload Htext Hfit Hst Hok.
    change (negb (0 =? 0)) with false. cbv iota.
    rewrite (parse_reply buffer written status payload) by (try assumption; lia).
    rewrite bind_lift_ret. cbn [is_error]. rewrite (not_ERR status Hok). reflexivity.
Qed.


(** X17: when [pre_mount] passes and the driver answers the mount command
    with a status line other than "ERR" followed by a descriptor in the
    twelve-line layout, [Mount] returns the descriptor [pre_mount] produced
    with the device numbers of the reply, and nothing else of the reply. *)
Theorem Mount_sets_devnums (c : dyskclient) (d d1 reply : Dysk) (t1 : list event)
    (status : string) (major minor : Z) (buffer written : list byte) :
  os_Open w = None ->
  pre_mount ReadOnly ReadWrite VHD_HEADER_SIZE w c d = (t1, Ret (d1, None)) ->
  bufferize (dysk2string d1) = Ret buffer ->
  ioctl w IOCTLMOUNTDYSK buffer = (0, written) ->
  string_of_list_byte written
  = (status ++ String LF (twelve_lines reply major minor))%string ->
  (List.length written <= 2048)%nat ->
  Contains status LF = false ->
  status <> "ERR" ->
  newline_free reply ->
  0 <= sectorCount reply < 2 ^ 64 ->
  - 2 ^ 63 <= major < 2 ^ 63 ->
  - 2 ^ 63 <= minor < 2 ^ 63 ->
  Mount ReadOnly ReadWrite VHD_HEADER_SIZE w c d
  = (EvOpen :: t1 ++ [EvIoctl IOCTLMOUNTDYSK buffer; EvClose],
     Ret (set_devnums d1 major minor, None)).
Proof.
  intros Hopen Hpre Hbuf Hioctl Htext Hfit Hst Hok Hnl Hsc Hmaj Hmin.
  destruct (bufferize_returns _ _ Hbuf) as [_ Hlen].
  unfold Mount, openDeviceFile. rewrite Hopen, bind_call. cbv beta iota.
  rewrite Hpre, bind_pair_ret. cbv beta iota.
  rewrite Hbuf, bind_lift_ret, (Syscall_IOCTL_eq _ _ _ _ _ Hioctl), bind_call.
  cbv beta iota. change (negb (0 =? 0)) with false. cbv iota.
  rewrite (parse_reply buffer written status (twelve_lines reply major minor))
    by (try assumption; lia).
  rewrite bind_lift_ret. cbn [is_error response]. rewrite (not_ERR status Hok).
  rewrite string2dysk_reply by assumption. rewrite bind_lift_ret.
  unfold ret, defer, closeDeviceFile. cbn [fst snd app Major Minor set_devnums].
  rewrite ?app_nil_r, <- ?app_assoc. reflexivity.
Qed.

End Exchanges.

Ltac concrete :=
  first [ reflexivity
        | discriminate
        | apply Nat.leb_le; vm_compute; reflexivity
        | repeat split; reflexivity
        | vm_compute; split; congruence
        | vm_compute; discriminate ].

Lemma get_decodes_reply_witness :
  get (cloud driver (inl (GiB, true))) "diskA"
  = ([EvIoctl IOCTGETDYSK (request_buffer "diskA")],
     Ret (inl (set_devnums (set_SizeGB disk1 0) 252 0))).
Proof.
  apply (get_decodes_reply (cloud driver (inl (GiB, true))) "diskA" "OK" disk1 252 0
           (request_buffer "diskA") disk_reply);
    concrete.
Defined.


Lemma Unmount_result_witness :
  let w := cloud quiet_driver (inl (GiB, true)) in
  (0 <> 0 ->
   Unmount w any_name "diskA"
   = ([EvOpen; EvIoctl IOCTLUNMOUNTDYSK (request_buffer "diskA"); EvClose],
      Ret (Some (Errno 0))))
  /\ (0 = 0 ->
      forall status payload,
        string_of_list_byte (bytes ("OK" ++ newline))
        = (status ++ String LF payload)%string ->
        (List.length (bytes ("OK" ++ newline)) <= 2048)%nat ->
        Contains status LF = false ->
        status <> "ERR" ->
        Unmount w any_name "diskA"
        = ([EvOpen; EvIoctl IOCTLUNMOUNTDYSK (request_buffer "diskA"); EvClose],
           Ret None)).
Proof.
  apply (Unmount_result (cloud quiet_driver (inl (GiB, true))) any_name "diskA"
           (request_buffer "diskA") (bytes ("OK" ++ newline)) 0);
    concrete.
Defined.


Lemma Mount_sets_devnums_witness :
  let w := cloud driver (inl (GiB, true)) in
  exists t1 d1 buffer,
    pre_mount "R" "RW" 512 w acct disk1 = (t1, Ret (d1, None))
    /\ bufferize (dysk2string d1) = Ret buffer
    /\ Mount "R" "RW" 512 w acct disk1
       = (EvOpen :: t1 ++ [EvIoctl IOCTLMOUNTDYSK buffer; EvClose],
          Ret (set_devnums d1 252 0, None)).
Proof.
  intros w.
  destruct (pre_mount "R" "RW" 512 w acct disk1) as [t1 [[d1 [e|]]|q]] eqn:Hpre;
    try (vm_compute in Hpre; discriminate Hpre).
  destruct (bufferize (dysk2string d1)) as [buffer|q] eqn:Hbuf.
  2:{ vm_compute in Hpre. injection Hpre as _ <-. vm_compute in Hbuf.
      discriminate Hbuf. }
  exists t1, d1, buffer. split; [reflexivity|]. split; [exact Hbuf|].
  apply (Mount_sets_devnums "R" "RW" 512 w acct disk1 d1 disk1 t1 "OK" 252 0
           buffer disk_reply);
    first [assumption | concrete].
Defined.

End ExchangeFacts.

(** ** Listing, further *)
Module ListingFacts.

Import Go Strings Strconv Client Vocabulary StringsFacts StrconvFacts.
Import BufferFacts LayoutFacts TraceFacts.

Lemma substring_length_le (n m : nat) (s : string) :
  (String.length (substring n m s) <= m)%nat.
Proof.
  revert n m. induction s as [|c s IH]; intros n m.
  - destruct n, m; simpl; lia.
  - destruct n as [|n].
    + destruct m as [|m]; simpl; [lia|]. specialize (IH 0%nat m). lia.
    + simpl. apply IH.
Qed.

(** The payload is shorter than the buffer it was cut from. *)
Lemma parseResponse_payload_short (b : list byte) (res : moduleResponse) :
  parseResponse b = Ret res ->
  (String.length (response res) < List.length b)%nat.
Proof.
  unfold parseResponse, slice_to, slice_from, len.
  rewrite sob_length.
  set (s := string_of_list_byte b). set (i := Index s LF).
  destruct (Z.ltb_spec i 0) as [L1|L1]; [discriminate|].
  destruct (Z.ltb_spec (Z.of_nat (List.length b)) i) as [L2|L2]; [discriminate|].
  cbn [orb bind].
  destruct (Z.ltb_spec (i + 1) 0) as [L3|L3]; [discriminate|].
  destruct (Z.ltb_spec (Z.of_nat (List.length b)) (i + 1)) as [L4|L4]; [discriminate|].
  cbn [orb bind]. intros [= <-]. cbn [response].
  assert (H := substring_length_le (Z.to_nat (i + 1))
                 (List.length b - Z.to_nat (i + 1)) s).
  lia.
Qed.

(** Every piece but the last is followed by a separator. *)
Lemma Split_piece_short (s : string) (sep : ascii) (piece : string) :
  In piece (removelast (Split s sep)) ->
  (String.length piece < String.length s)%nat.
Proof.
  revert piece. induction s as [|c s IH]; intros piece Hin; [destruct Hin|].
  cbn [Split] in Hin. destruct (Ascii.eqb c sep).
  - destruct (Split s sep) as [|h t] eqn:E; [now apply Split_nonempty in E|].
    cbn [removelast] in Hin. destruct Hin as [<-|Hin]; [simpl; lia|].
    apply IH in Hin. simpl. lia.
  - destruct (Split s sep) as [|h t] eqn:E; [now apply Split_nonempty in E|].
    destruct t as [|h' t]; [destruct Hin|].
    cbn [removelast] in Hin, IH. destruct Hin as [<-|Hin].
    + specialize (IH h (or_introl eq_refl)). simpl. lia.
    + specialize (IH piece (or_intror Hin)). simpl. lia.
Qed.

Lemma skipn_zeros (n m : nat) : skipn n (repeat x00 m) = repeat x00 (m - n).
Proof.
  revert m. induction n as [|n IH]; intros m.
  - now rewrite Nat.sub_0_r.
  - destruct m as [|m]; [reflexivity|]. cbn [repeat skipn]. apply IH.
Qed.

Lemma index_panic (a : list string) (i : nat) (p : panic) :
  index a i = Panic p -> is_alloc_panic p = false.
Proof.
  unfold index. destruct (nth_error a i); [discriminate|]. now intros [= <-].
Qed.

Lemma parseResponse_panic (b : list byte) (p : panic) :
  parseResponse b = Panic p -> is_alloc_panic p = false.
Proof.
  unfold parseResponse, slice_to, slice_from.
  destruct (_ || _); [now intros [= <-]|]. cbn [bind].
  destruct (_ || _); [now intros [= <-]|]. discriminate.
Qed.

Lemma string2dysk_panic (s : string) (p : panic) :
  string2dysk s = Panic p -> is_alloc_panic p = false.
Proof.
  unfold string2dysk. cbv zeta.
  repeat match goal with
         | |- context [bind (index ?a ?i) _] =>
             let E := fresh "E" in
             destruct (index a i) eqn:E; cbn [bind];
             [|intros [= <-]; exact (index_panic _ _ _ E)]
         | |- context [match ?x with pair _ _ => _ end] => destruct x
         | |- context [match ?e with Some _ => _ | None => _ end] => destruct e
         end;
    discriminate.
Qed.

Section Listing.

Variable VHD_HEADER_SIZE : Z.
Variable w : World.

Lemma get_no_alloc_panic (name : string) (p : panic) :
  len (name_request name) <= 2048 ->
  snd (get w name) = Panic p -> is_alloc_panic p = false.
Proof.
  intros Hfit. unfold get. fold (name_request name).
  rewrite (bufferize_fits _ Hfit), bind_lift_ret.
  set (buffer := list_byte_of_string (name_request name) ++ _).
  destruct (ioctl w IOCTGETDYSK buffer) as [e written] eqn:Hioctl.
  rewrite (Syscall_IOCTL_eq _ _ _ _ _ Hioctl), bind_call. cbn [snd].
  destruct (negb (e =? 0)); [discriminate|].
  rewrite bindM_snd. unfold lift. cbn [snd].
  destruct (parseResponse _) as [res|q] eqn:Hparse.
  - destruct (is_error res); [discriminate|]. cbn [snd]. apply string2dysk_panic.
  - intros [= <-]. exact (parseResponse_panic _ _ Hparse).
Qed.

Lemma get_each_no_alloc_panic (names : list string) (dysks : list Dysk) (p : panic) :
  Forall (fun name => len (name_request name) <= 2048) names ->
  snd (get_each VHD_HEADER_SIZE w names dysks) = Panic p ->
  is_alloc_panic p = false.
Proof.
  intros Hfit. revert dysks.
  induction Hfit as [|name names Hname _ IH]; intros dysks; [discriminate|].
  cbn [get_each]. rewrite bindM_snd.
  destruct (snd (get w name)) as [[d|e]|q] eqn:Hget.
  - apply IH.
  - discriminate.
  - intros [= <-]. exact (get_no_alloc_panic name q Hname Hget).
Qed.

(** X18: no request of [List] overflows its buffer: the list request has
    one byte, and every name [List] asks for was cut from a 2048-byte reply
    before a line feed, so the name, the line feed and the zero byte fit.
    [List] therefore never panics in [bufferize]. *)
Theorem List_requests_fit (p : panic) :
  snd (List VHD_HEADER_SIZE w) = Panic p -> is_alloc_panic p = false.
Proof.
  unfold List. rewrite bindM_snd. unfold openDeviceFile, call. cbn [snd].
  destruct (os_Open w) as [e|]; [discriminate|].
  rewrite defer_snd.
  assert (Hdash : len "-" <= 2048) by (vm_compute; discriminate).
  rewrite (bufferize_fits "-" Hdash), bind_lift_ret.
  set (request := list_byte_of_string "-" ++ repeat x00 (2048 - String.length "-")).
  assert (Hreq : List.length request = 2048%nat).
  { subst request. rewrite length_app, repeat_length. reflexivity. }
  destruct (ioctl w IOCTLISTDYYSKS request) as [e written] eqn:Hioctl.
  rewrite (Syscall_IOCTL_eq _ _ _ _ _ Hioctl), bind_call. cbn [snd].
  destruct (negb (e =? 0)); [discriminate|].
  rewrite bindM_snd. unfold lift. cbn [snd].
  destruct (parseResponse (overwrite request written)) as [res|q] eqn:Hparse.
  2:{ intros [= <-]. exact (parseResponse_panic _ _ Hparse). }
  destruct (is_error res); [discriminate|].
  replace (Z.of_nat (List.length (Split (response res) LF)) - 1)
    with (0 + Z.of_nat (List.length (Split (response res) LF)) - 1) by lia.
  rewrite OperationFacts.List_loop_get_each by apply Split_nonempty.
  apply get_each_no_alloc_panic.
  apply Forall_forall. intros name Hin.
  apply Split_piece_short in Hin.
  apply parseResponse_payload_short in Hparse.
  rewrite overwrite_length, Hreq in Hparse.
  unfold name_request, len. rewrite append_length. cbn [String.length]. lia.
Qed.

(** X19: when the payload of a successful list reply holds no line feed,
    [List] asks for no name and returns no descriptor and no error. *)
Theorem List_no_names (written : list byte) (status payload : string) :
  os_Open w = None ->
  ioctl w IOCTLISTDYYSKS list_request = (0, written) ->
  string_of_list_byte written = (status ++ String LF payload)%string ->
  (List.length written <= 2048)%nat ->
  Contains status LF = false ->
  status <> "ERR" ->
  Contains payload LF = false ->
  List VHD_HEADER_SIZE w
  = ([EvOpen; EvIoctl IOCTLISTDYYSKS list_request; EvClose], Ret (inl [])).
Proof.
  intros Hopen Hioctl Htext Hfit Hst Hok Hpay.
  assert (Hdash : bufferize "-" = Ret list_request) by (vm_compute; reflexivity).
  assert (Hlen : List.length list_request = 2048%nat) by reflexivity.
  unfold List, openDeviceFile. rewrite Hopen, bind_call. cbv beta iota.
  rewrite Hdash, bind_lift_ret, (Syscall_IOCTL_eq _ _ _ _ _ Hioctl), bind_call.
  cbv beta iota. change (negb (0 =? 0)) with false. cbv iota.
  rewrite (ExchangeFacts.parse_reply list_request written status payload)
    by (try assumption; lia).
  rewrite bind_lift_ret. cbn [is_error response].
  rewrite (ExchangeFacts.not_ERR status Hok).
  rewrite Split_last.
  - reflexivity.
  - apply Contains_app. split; [exact Hpay|].
    assert (Hskip : skipn (List.length written) list_request
                    = repeat x00 (2048 - List.length written)).
    { unfold list_request. destruct written as [|b written].
      { destruct status; discriminate Htext. }
      cbn [List.length skipn]. rewrite skipn_zeros.
      f_equal; cbn [List.length] in Hfit; lia. }
    rewrite Hskip. apply zeros_text_newline_free.
Qed.

End Listing.

Lemma List_no_names_witness :
  List 512 (cloud quiet_driver (inl (GiB, true)))
  = ([EvOpen; EvIoctl IOCTLISTDYYSKS list_request; EvClose], Ret (inl [])).
Proof.
  apply (List_no_names 512 (cloud quiet_driver (inl (GiB, true)))
           (bytes ("OK" ++ newline)) "OK" EmptyString);
    ExchangeFacts.concrete.
Defined.

Lemma List_requests_fit_witness :
  is_alloc_panic (SliceBoundsOutOfRange (-1) 2048) = false.
Proof.
  apply (List_requests_fit 512 (cloud silent_driver (inl (GiB, true)))).
  vm_compute. reflexivity.
Defined.

End ListingFacts.

(** ** Provisioning, further *)
Module ProvisioningFacts.

Import Go Strings Strconv Client Vocabulary StringsFacts StrconvFacts.
Import BufferFacts LayoutFacts TraceFacts.


Section Provisioning.

Variable VHD_HEADER_SIZE : Z.
Variable w : World.




End Provisioning.


End ProvisioningFacts.
